(** * Phinances: Markdown to collapsible HTML, and the index generator

    A shallow embedding of [convert.py] ([strip_frontmatter],
    [parse_sections], [HtmlBuilder]) and of [generate_index.py]
    ([generate_index]), followed by the properties of the specification
    that concern them.

    Python values are modelled as follows.
    - A [str] is a sequence of Unicode code points: [pystr := list char]
      with [char := N].  String literals of the source are written with
      [str "..."]; the line feed and the double quote are [nl] and [dq].
    - An [int] is a [Z]; positions produced by the regular-expression
      engine and lengths are [nat].
    - A [list] used as a sequence keeps its order; the list used as a
      stack ([HtmlBuilder.stack]) is kept with the END of the Python list
      at the head of the Rocq list, see [HtmlBuilder]. *)

From Stdlib Require Import String Ascii DecimalString.
From Stdlib Require Import List ZArith NArith Bool Arith Lia.
From Stdlib Require Import Sorted Permutation.
Import ListNotations.

Local Open Scope Z_scope.

(* ================================================================== *)
(** ** Python strings *)
(* ================================================================== *)

Module PyStr.

Definition char := N.
Definition pystr := list char.

(** A source literal, one code point per character. *)
Definition str (s : String.string) : pystr :=
  List.map N_of_ascii (list_ascii_of_string s).

Definition LF : char := 10%N.
Definition nl : pystr := [LF].
Definition dq : pystr := [34%N].

Definition char_eqb (a b : char) : bool := N.eqb a b.

Fixpoint pystr_eqb (a b : pystr) : bool :=
  match a, b with
  | [], [] => true
  | x :: a', y :: b' => char_eqb x y && pystr_eqb a' b'
  | _, _ => false
  end.

(** [str.isspace] on one code point, which is also the class [\s] of [re]
    on [str] patterns (CPython's [_PyUnicode_IsWhitespace]). *)
Definition isspace (c : char) : bool :=
  ((9 <=? c) && (c <=? 13) || (28 <=? c) && (c <=? 32)
   || (c =? 133) || (c =? 160) || (c =? 5760)
   || (8192 <=? c) && (c <=? 8202)
   || (c =? 8232) || (c =? 8233) || (c =? 8239) || (c =? 8287)
   || (c =? 12288))%N.

(** [s.lstrip()], [s.rstrip()], [s.strip()] without argument. *)
Fixpoint lstrip (s : pystr) : pystr :=
  match s with
  | c :: s' => if isspace c then lstrip s' else s
  | [] => []
  end.

Definition rstrip (s : pystr) : pystr := rev (lstrip (rev s)).
Definition strip (s : pystr) : pystr := rstrip (lstrip s).

(** Truth value of a [str]: non-empty. *)
Definition truthy (s : pystr) : bool :=
  match s with [] => false | _ :: _ => true end.

(** [s.lstrip(chars)]. *)
Fixpoint lstrip_chars (chars : pystr) (s : pystr) : pystr :=
  match s with
  | c :: s' => if existsb (char_eqb c) chars then lstrip_chars chars s' else s
  | [] => []
  end.

(** [s.startswith(p)]. *)
Fixpoint startswith (s p : pystr) {struct p} : bool :=
  match p, s with
  | [], _ => true
  | x :: p', y :: s' => char_eqb x y && startswith s' p'
  | _ :: _, [] => false
  end.

(** [s.endswith(p)]. *)
Definition endswith (s p : pystr) : bool := startswith (rev s) (rev p).

(** Scan of [s], whose first character has index [i], for the lowest
    index at which [sub] occurs. *)
Fixpoint find_from (sub s : pystr) (i : nat) : Z :=
  if startswith s sub then Z.of_nat i
  else match s with
       | [] => -1
       | _ :: s' => find_from sub s' (S i)
       end.

(** [s.find(sub, start)] for [start >= 0]: the lowest index [>= start]
    where [sub] occurs, [-1] when there is none. *)
Definition find (s sub : pystr) (start : nat) : Z :=
  if (length s <? start)%nat then -1
  else find_from sub (skipn start s) start.

(** [s[k:]] for an [int] [k]; a negative [k] counts from the end. *)
Definition slice_from (s : pystr) (k : Z) : pystr :=
  if k <? 0 then skipn (Z.to_nat (Z.max 0 (Z.of_nat (length s) + k))) s
  else skipn (Z.to_nat k) s.

(** [s[a:b]] for [0 <= a] and [0 <= b]. *)
Definition slice (s : pystr) (a b : nat) : pystr :=
  firstn (b - a) (skipn a s).

(** [sep.join(parts)]. *)
Fixpoint join (sep : pystr) (parts : list pystr) : pystr :=
  match parts with
  | [] => []
  | [p] => p
  | p :: ps => p ++ sep ++ join sep ps
  end.

(** [s * n]. *)
Fixpoint repeat_str (s : pystr) (n : nat) : pystr :=
  match n with
  | O => []
  | S n' => s ++ repeat_str s n'
  end.

(** [s.replace(a, b)] for one-character [a] and [b]. *)
Definition replace_char (a b : char) (s : pystr) : pystr :=
  List.map (fun c => if char_eqb c a then b else c) s.

(** [s.lower()] on the letters A-Z.  Outside ASCII the only code point
    that Python lowers to an ASCII letter is U+212A (to k), so a
    comparison of [lower s] with a literal without k is not affected. *)
Definition lower_char (c : char) : char :=
  if ((65 <=? c) && (c <=? 90))%N then (c + 32)%N else c.
Definition lower (s : pystr) : pystr := List.map lower_char s.

(** The line boundaries of [str.splitlines]. *)
Definition is_linebreak (c : char) : bool :=
  ((10 <=? c) && (c <=? 13) || (28 <=? c) && (c <=? 30)
   || (c =? 133) || (c =? 8232) || (c =? 8233))%N.

(** [s.splitlines()]: [cur] is the current line, reversed.  CR LF is one
    boundary; no empty last line is produced. *)
Fixpoint splitlines_aux (cur : pystr) (s : pystr) : list pystr :=
  match s with
  | [] => match cur with [] => [] | _ :: _ => [rev cur] end
  | c :: s' =>
      if char_eqb c 13%N then
        match s' with
        | d :: s'' =>
            if char_eqb d LF then rev cur :: splitlines_aux [] s''
            else rev cur :: splitlines_aux [] s'
        | [] => rev cur :: splitlines_aux [] s'
        end
      else if is_linebreak c then rev cur :: splitlines_aux [] s'
      else splitlines_aux (c :: cur) s'
  end.

Definition splitlines (s : pystr) : list pystr := splitlines_aux [] s.

(** [str(n)] of an [int], as the f-strings format it. *)
Definition str_of_int (n : Z) : pystr :=
  str (NilEmpty.string_of_int (Z.to_int n)).

End PyStr.

Import PyStr.

(* ================================================================== *)
(** ** convert.py *)
(* ================================================================== *)

Module Convert.

(** *** Frontmatter *)

(** The literal ["---"]. *)
Definition delim : pystr := str "---".

Definition strip_frontmatter (content : pystr) : pystr :=
  if negb (startswith content delim) then content
  else
    let end_ := find content (nl ++ delim) 3 in
    if end_ =? -1 then content
    else lstrip_chars nl (slice_from content (end_ + 4)).

(** *** The regular expression of [parse_sections]

    The fragment of [re] that [heading_pattern] uses, with the
    backtracking semantics of the engine: a greedy repeat tries the
    longest run first and gives characters back one at a time.  A match
    is searched in the whole text; [before] holds the characters to the
    left of the current position, nearest first. *)

Record cursor := { before : pystr; after : pystr }.

Definition pos (c : cursor) : nat := length (before c).

Inductive regex :=
| Bol                                              (* ^ with re.MULTILINE *)
| Eol                                              (* $ with re.MULTILINE *)
| Rep (cls : char -> bool) (lo : nat) (hi : option nat) (* x{lo,hi}, x+ *)
| Group (r : regex)                                (* ( ... ) *)
| Cat (r1 r2 : regex).

(** The spans of the groups closed so far, in the order they closed
    (the order of their numbers when no group is nested in another). *)
Definition captures := list (nat * nat).
Definition outcome := (cursor * captures)%type.

Definition at_bol (c : cursor) : bool :=
  match before c with [] => true | x :: _ => char_eqb x LF end.

Definition at_eol (c : cursor) : bool :=
  match after c with [] => true | x :: _ => char_eqb x LF end.

Definition can_take (hi : option nat) : bool :=
  match hi with Some O => false | _ => true end.

Definition taken (hi : option nat) : option nat :=
  match hi with Some n => Some (Nat.pred n) | None => None end.

(** Greedy repeat of a one-character class, then the continuation [k]. *)
Fixpoint rep (cls : char -> bool) (lo : nat) (hi : option nat)
    (k : cursor -> option outcome) (bef aft : pystr) : option outcome :=
  let stop :=
    match lo with
    | O => k {| before := bef; after := aft |}
    | S _ => None
    end in
  match aft with
  | x :: aft' =>
      if cls x && can_take hi then
        match rep cls (Nat.pred lo) (taken hi) k (x :: bef) aft' with
        | Some r => Some r
        | None => stop
        end
      else stop
  | [] => stop
  end.

Fixpoint run (r : regex) (k : cursor -> captures -> option outcome)
    (c : cursor) (caps : captures) : option outcome :=
  match r with
  | Bol => if at_bol c then k c caps else None
  | Eol => if at_eol c then k c caps else None
  | Rep cls lo hi => rep cls lo hi (fun c' => k c' caps) (before c) (after c)
  | Group r1 => run r1 (fun c' caps' => k c' (caps' ++ [(pos c, pos c')])) c caps
  | Cat r1 r2 => run r1 (run r2 k) c caps
  end.

(** A match object: [m.start()], [m.end()] and the spans of its groups. *)
Record re_match := { m_start : nat; m_end : nat; m_spans : captures }.

(** [m.group(i)] for [i >= 1], on the text [content] that was searched. *)
Definition group (content : pystr) (m : re_match) (i : nat) : pystr :=
  match nth_error (m_spans m) (i - 1) with
  | Some (a, b) => slice content a b
  | None => []
  end.

Definition match_here (r : regex) (c : cursor) : option (re_match * cursor) :=
  match run r (fun c' caps => Some (c', caps)) c [] with
  | Some (c', caps) =>
      Some ({| m_start := pos c; m_end := pos c'; m_spans := caps |}, c')
  | None => None
  end.

(** [pattern.search]: the first position, from the cursor on, at which
    the pattern matches. *)
Fixpoint search (r : regex) (bef aft : pystr) : option (re_match * cursor) :=
  match match_here r {| before := bef; after := aft |} with
  | Some res => Some res
  | None =>
      match aft with
      | x :: aft' => search r (x :: bef) aft'
      | [] => None
      end
  end.

(** [pattern.finditer]: the next search starts where the last match
    ended.  (The engine's extra rule for empty matches is left out: the
    pattern below matches no empty text.)  [fuel] bounds the number of
    matches. *)
Fixpoint finditer_loop (fuel : nat) (r : regex) (c : cursor) : list re_match :=
  match fuel with
  | O => []
  | S fuel' =>
      match search r (before c) (after c) with
      | Some (m, c') => m :: finditer_loop fuel' r c'
      | None => []
      end
  end.

Definition finditer (r : regex) (content : pystr) : list re_match :=
  finditer_loop (S (length content)) r {| before := []; after := content |}.

Definition is_hash (c : char) : bool := char_eqb c 35%N.
Definition not_newline (c : char) : bool := negb (char_eqb c LF).

(** [re.compile(r"^(#{1,6})\s+(.+)$", re.MULTILINE)] *)
Definition heading_pattern : regex :=
  Cat Bol
   (Cat (Group (Rep is_hash 1 (Some 6%nat)))
    (Cat (Rep isspace 1 None)
     (Cat (Group (Rep not_newline 1 None))
      Eol))).

(** *** Nodes and [parse_sections] *)

Inductive node :=
| Heading (level : Z) (text : pystr)   (* {"type": "heading", ...} *)
| Content (text : pystr).              (* {"type": "content", ...} *)

(** One turn of the [for match in ...] loop on [(nodes, last_pos)]. *)
Definition parse_step (content : pystr) (st : list node * nat) (m : re_match)
    : list node * nat :=
  let '(nodes, last_pos) := st in
  let before_ := slice content last_pos (m_start m) in
  let nodes := if truthy (strip before_) then nodes ++ [Content before_]
               else nodes in
  let level := Z.of_nat (length (group content m 1)) in
  let text := strip (group content m 2) in
  (nodes ++ [Heading level text], m_end m).

Definition parse_sections (content : pystr) : list node :=
  let '(nodes, last_pos) :=
    fold_left (parse_step content) (finditer heading_pattern content)
              ([], O) in
  let remainder := skipn last_pos content in
  if truthy (strip remainder) then nodes ++ [Content remainder] else nodes.

(** *** [HtmlBuilder]

    [lines] is the Python list of output lines, in the order they were
    appended.  Each line carries, next to its text, the statement of the
    class that appended it ([kind]); [get_html] only reads the text.

    [stack] is the Python list used as a stack, innermost container
    first: [self.stack.append(x)] is [x :: stack], [self.stack[-1]] is
    the head and [self.stack.pop()] drops the head.  [py_stack] gives the
    Python list, outermost container first. *)

Inductive line_kind :=
| KClose      (* "</details>", in _close_until and close_all *)
| KOpen       (* <details ...>, in add_heading *)
| KSummary    (* <summary ...>, in add_heading *)
| KPlain      (* <hN>...</hN>, in add_heading *)
| KContent.   (* a rendered line, in add_content *)

Record out_line := { kind : line_kind; text : pystr }.

Record HtmlBuilder := {
  collapsible_levels : list Z;
  open_by_default : list Z;
  lines : list out_line;
  stack : list Z
}.

Definition py_stack (b : HtmlBuilder) : list Z := rev (stack b).

(** [x in l] on a list of [int]. *)
Definition py_in (x : Z) (l : list Z) : bool := existsb (Z.eqb x) l.

(** [HtmlBuilder(collapsible_levels=..., open_by_default=...)] *)
Definition init (collapsible open_ : list Z) : HtmlBuilder :=
  {| collapsible_levels := collapsible; open_by_default := open_;
     lines := []; stack := [] |}.

Definition emit (b : HtmlBuilder) (l : out_line) : HtmlBuilder :=
  {| collapsible_levels := collapsible_levels b;
     open_by_default := open_by_default b;
     lines := lines b ++ [l]; stack := stack b |}.

Definition push (b : HtmlBuilder) (level : Z) : HtmlBuilder :=
  {| collapsible_levels := collapsible_levels b;
     open_by_default := open_by_default b;
     lines := lines b; stack := level :: stack b |}.

Definition with_stack (b : HtmlBuilder) (s : list Z) : HtmlBuilder :=
  {| collapsible_levels := collapsible_levels b;
     open_by_default := open_by_default b;
     lines := lines b; stack := s |}.

Definition close_line : out_line :=
  {| kind := KClose; text := str "</details>" |}.

(** The [while] loop of [_close_until], by recursion on the stack. *)
Fixpoint close_until_loop (level : Z) (stk : list Z) (b : HtmlBuilder)
    : HtmlBuilder :=
  match stk with
  | top :: stk' =>
      if top >=? level
      then close_until_loop level stk' (with_stack (emit b close_line) stk')
      else b
  | [] => b
  end.

Definition _close_until (level : Z) (b : HtmlBuilder) : HtmlBuilder :=
  close_until_loop level (stack b) b.

Definition _pad (b : HtmlBuilder) (extra : nat) : pystr :=
  repeat_str (str "  ") (length (stack b) + extra).

Definition open_attr (b : HtmlBuilder) (level : Z) : pystr :=
  if py_in level (open_by_default b) then str " open" else [].

Definition open_text (pad : pystr) (level : Z) (attr : pystr) : pystr :=
  pad ++ str "<details class=" ++ dq ++ str "niveau" ++ str_of_int level
      ++ dq ++ attr ++ str ">".

Definition summary_text (pad : pystr) (level : Z) (txt : pystr) : pystr :=
  pad ++ str "  <summary class=" ++ dq ++ str "summary-h" ++ str_of_int level
      ++ dq ++ str ">" ++ txt ++ str "</summary>".

Definition plain_text (pad : pystr) (level : Z) (txt : pystr) : pystr :=
  pad ++ str "<h" ++ str_of_int level ++ str ">" ++ txt
      ++ str "</h" ++ str_of_int level ++ str ">".

Definition add_heading (level : Z) (txt : pystr) (b : HtmlBuilder)
    : HtmlBuilder :=
  let b := _close_until level b in
  let pad := _pad b 0 in
  if py_in level (collapsible_levels b) then
    let b := emit b {| kind := KOpen;
                       text := open_text pad level (open_attr b level) |} in
    let b := emit b {| kind := KSummary;
                       text := summary_text pad level txt |} in
    push b level
  else
    emit b {| kind := KPlain; text := plain_text pad level txt |}.

(** The [while] loop of [close_all]. *)
Fixpoint close_all_loop (stk : list Z) (b : HtmlBuilder) : HtmlBuilder :=
  match stk with
  | _ :: stk' => close_all_loop stk' (with_stack (emit b close_line) stk')
  | [] => b
  end.

Definition close_all (b : HtmlBuilder) : HtmlBuilder :=
  close_all_loop (stack b) b.

Definition get_html (b : HtmlBuilder) : pystr :=
  join nl (List.map text (lines b)).

Section Renderer.

(** [markdown.Markdown(...).convert], the external renderer. *)
Variable md_convert : pystr -> pystr.

Definition md_to_html (txt : pystr) : pystr :=
  if negb (truthy (strip txt)) then [] else md_convert txt.

Definition content_line (pad line : pystr) : out_line :=
  {| kind := KContent;
     text := if truthy (strip line) then pad ++ line else [] |}.

Definition add_content (txt : pystr) (b : HtmlBuilder) : HtmlBuilder :=
  let html := md_to_html txt in
  if negb (truthy html) then b
  else
    let pad := _pad b 1 in
    fold_left (fun b line => emit b (content_line pad line))
              (splitlines html) b.

(** The body of the [for node in nodes] loop of [convert]. *)
Definition add_node (b : HtmlBuilder) (n : node) : HtmlBuilder :=
  match n with
  | Heading level txt => add_heading level txt b
  | Content txt => add_content txt b
  end.

(** The builder as [convert] drives it: every node, then [close_all]. *)
Definition build (collapsible open_ : list Z) (nodes : list node)
    : HtmlBuilder :=
  close_all (fold_left add_node nodes (init collapsible open_)).

(** Any sequence of calls of the three public operations. *)
Inductive op :=
| OpHeading (level : Z) (txt : pystr)
| OpContent (txt : pystr)
| OpCloseAll.

Definition apply_op (b : HtmlBuilder) (o : op) : HtmlBuilder :=
  match o with
  | OpHeading level txt => add_heading level txt b
  | OpContent txt => add_content txt b
  | OpCloseAll => close_all b
  end.

Definition run_ops (b : HtmlBuilder) (ops : list op) : HtmlBuilder :=
  fold_left apply_op ops b.

End Renderer.

End Convert.

(* ================================================================== *)
(** ** generate_index.py *)
(* ================================================================== *)

Module GenerateIndex.

(** A directory is the list of the names of its entries, in the order
    the file system yields them; a [Path] of the directory is modelled
    by its [name].  Paths of one directory compare as their names do
    (POSIX flavour: by code points, case-sensitive). *)

(** [a < b] on [str]. *)
Fixpoint pystr_ltb (a b : pystr) : bool :=
  match a, b with
  | _, [] => false
  | [], _ :: _ => true
  | x :: a', y :: b' => (x <? y)%N || (x =? y)%N && pystr_ltb a' b'
  end.

(** [sorted]: a stable sort that compares with [<] only. *)
Fixpoint insert_sorted (x : pystr) (l : list pystr) : list pystr :=
  match l with
  | [] => [x]
  | y :: l' => if pystr_ltb y x then y :: insert_sorted x l' else x :: l
  end.

Fixpoint sorted (l : list pystr) : list pystr :=
  match l with
  | [] => []
  | x :: l' => insert_sorted x (sorted l')
  end.

(** [directory.glob("*.html")] *)
Definition glob_html (entries : list pystr) : list pystr :=
  filter (fun name => endswith name (str ".html")) entries.

Definition index_name : pystr := str "index.html".

Definition html_files (entries : list pystr) : list pystr :=
  sorted (filter (fun name => negb (pystr_eqb (lower name) index_name))
                 (glob_html entries)).

(** [name.rfind(".")], [None] for [-1]; [i] is the index of the head. *)
Fixpoint rfind_dot (name : pystr) (i : nat) : option nat :=
  match name with
  | [] => None
  | c :: name' =>
      match rfind_dot name' (S i) with
      | Some j => Some j
      | None => if char_eqb c 46%N then Some i else None
      end
  end.

(** [PurePath.stem]: the name without its last suffix; a dot that
    starts or ends the name starts no suffix. *)
Definition stem (name : pystr) : pystr :=
  match rfind_dot name 0 with
  | Some i =>
      if ((0 <? i) && (i <? length name - 1))%nat then firstn i name
      else name
  | None => name
  end.

Definition display_name (name : pystr) : pystr :=
  replace_char 95%N 32%N (replace_char 45%N 32%N (stem name)).

Definition item (name : pystr) : pystr :=
  str "    <li><a href=" ++ dq ++ name ++ dq ++ str ">"
      ++ display_name name ++ str "</a></li>".

Definition items (entries : list pystr) : list pystr :=
  List.map item (html_files entries).

Definition q (s : String.string) : pystr := dq ++ str s ++ dq.

Definition page (css_file lang items_html : pystr) : pystr :=
  concat (List.map (fun l => l ++ nl)
   [ str "<!DOCTYPE html>";
     str "<html lang=" ++ dq ++ lang ++ dq ++ str ">";
     str "<head>";
     str "  <meta charset=" ++ q "UTF-8" ++ str ">";
     str "  <meta name=" ++ q "viewport" ++ str " content="
       ++ q "width=device-width, initial-scale=1.0" ++ str ">";
     str "  <title>Index</title>";
     str "  <link rel=" ++ q "stylesheet" ++ str " href="
       ++ dq ++ css_file ++ dq ++ str ">";
     str "</head>";
     str "<body>";
     [];
     str "  <div class=" ++ q "topbar" ++ str ">";
     str "    <div class=" ++ q "topbar-title"
       ++ str ">Index des documents</div>";
     str "  </div>";
     str "  <div class=" ++ q "topbar-spacer" ++ str "></div>";
     [];
     str "  <div class=" ++ q "page-content" ++ str ">";
     str "    <ul class=" ++ q "index-liste" ++ str ">";
     items_html;
     str "    </ul>";
     str "  </div>";
     [];
     str "</body>";
     str "</html>" ]).

(** [generate_index]: the text written to [index.html], or [None] when
    the function returns before writing. *)
Definition generate_index (entries : list pystr) (css_file lang : pystr)
    : option pystr :=
  match html_files entries with
  | [] => None
  | _ :: _ => Some (page css_file lang (join nl (items entries)))
  end.

End GenerateIndex.

Import Convert GenerateIndex.

(* ================================================================== *)
(** ** convert.py: configuration and driver *)
(* ================================================================== *)

Module Driver.

(** *** [load_config]

    A JSON value as [json.load] returns it.  A float is kept as its 64
    bits, which nothing here looks into.  An object is given by its
    items as the file writes them: a key written twice keeps its first
    place and takes its last value.  The messages that [load_config]
    prints are left out. *)
Local Unset Elimination Schemes.

Inductive json :=
| JNull
| JBool (b : bool)
| JInt (n : Z)
| JFloat (bits : N)
| JStr (s : pystr)
| JList (l : list json)
| JObject (l : list (pystr * json)).

Local Set Elimination Schemes.

(** A key of a [dict]: a [str], or another hashable value ([None], a
    [bool], an [int], a [float]). *)
Inductive pykey :=
| KStr (s : pystr)
| KOther (v : json).

(** What [os.path.exists] and the reading of the file give for a path:
    no such path; a path that [open] or [json.load] fails on (a
    directory, text that is not JSON, ...); or the value loaded. *)
Inductive file_state :=
| Missing
| Unreadable
| Holds (v : json).

(** A [dict] keeps its keys in insertion order: assigning to a key that
    is present replaces its value in place, assigning to a new key
    appends it. *)
Definition dict := list (pykey * json).

Definition DEFAULT_CONFIG : dict :=
  [ (KStr (str "collapsible_levels"), JList [JInt 2; JInt 3]);
    (KStr (str "css_file"), JStr (str "style.css"));
    (KStr (str "open_by_default"), JList []);
    (KStr (str "lang"), JStr (str "fr")) ].

(** Lists and objects cannot be keys. *)
Definition hashable (v : json) : bool :=
  match v with
  | JList _ | JObject _ => false
  | _ => true
  end.

Definition to_key (v : json) : pykey :=
  match v with
  | JStr s => KStr s
  | _ => KOther v
  end.

(** The keys of a loaded object, each once, in the order of their
    first occurrence. *)
Fixpoint distinct (l : list pystr) : list pystr :=
  match l with
  | [] => []
  | k :: l' => k :: filter (fun k' => negb (pystr_eqb k k')) (distinct l')
  end.

(** [dict.update] on a sequence takes each element as a sequence of
    exactly two items, key and value: a list of two values; a string of
    two characters; an object with two keys, which are then the two
    items.  [None] when the element makes [update] raise. *)
Definition pair_of (e : json) : option (pykey * json) :=
  match e with
  | JList [k; v] => if hashable k then Some (to_key k, v) else None
  | JStr [a; b] => Some (KStr [a], JStr [b])
  | JObject items =>
      match distinct (List.map fst items) with
      | [k1; k2] => Some (KStr k1, JStr k2)
      | _ => None
      end
  | _ => None
  end.

Fixpoint pairs_of (l : list json) : option (list (pykey * json)) :=
  match l with
  | [] => Some []
  | e :: l' =>
      match pair_of e, pairs_of l' with
      | Some p, Some ps => Some (p :: ps)
      | _, _ => None
      end
  end.

Section Config.

(** The test of a [dict] for two keys that are not [str]: the same
    object, or [==] (so [True], [1] and [1.0] are one key).  It needs
    the value of floats and is left open. *)
Variable other_eqb : json -> json -> bool.

(** A [str] is never equal to a key that is not one. *)
Definition key_eqb (a b : pykey) : bool :=
  match a, b with
  | KStr s, KStr t => pystr_eqb s t
  | KOther u, KOther v => other_eqb u v
  | _, _ => false
  end.

(** [d.get(k)], [None] when the key is missing. *)
Fixpoint dict_get (d : dict) (k : pykey) : option json :=
  match d with
  | [] => None
  | (k', v) :: d' => if key_eqb k' k then Some v else dict_get d' k
  end.

(** [d[k] = v] *)
Fixpoint dict_set (d : dict) (k : pykey) (v : json) : dict :=
  match d with
  | [] => [(k, v)]
  | (k', v') :: d' =>
      if key_eqb k' k then (k', v) :: d' else (k', v') :: dict_set d' k v
  end.

Definition assign_all (d : dict) (ps : list (pykey * json)) : dict :=
  fold_left (fun d kv => dict_set d (fst kv) (snd kv)) ps d.

(** [d.update(u)] for a loaded value [u]; [None] when it raises: an
    object gives its items; a list is a sequence of pairs; a string is
    a sequence of one-character strings, none of which is a pair, so
    only the empty string passes; anything else is not iterable. *)
Definition dict_update (d : dict) (u : json) : option dict :=
  match u with
  | JObject items =>
      Some (assign_all d (List.map (fun kv => (KStr (fst kv), snd kv)) items))
  | JList l =>
      match pairs_of l with
      | Some ps => Some (assign_all d ps)
      | None => None
      end
  | JStr [] => Some d
  | _ => None
  end.

(** [load_config]: the configuration returned, [None] when the call
    raises. *)
Definition load_config (files : pystr -> file_state) (config_path : pystr)
    : option dict :=
  if truthy config_path then
    match files config_path with
    | Holds user_config => dict_update DEFAULT_CONFIG user_config
    | Unreadable => None
    | Missing => Some DEFAULT_CONFIG
    end
  else Some DEFAULT_CONFIG.

End Config.

(** *** File names in [convert] and in the entry point

    A path is modelled by its last component, as in [GenerateIndex]. *)

(** [PurePath.suffix]: from the last dot on, unless that dot starts or
    ends the name. *)
Definition suffix (name : pystr) : pystr :=
  match rfind_dot name 0 with
  | Some i =>
      if ((0 <? i) && (i <? length name - 1))%nat then skipn i name
      else []
  | None => []
  end.

(** [input_file.stem.replace("-", " ").replace("_", " ")] *)
Definition page_title (name : pystr) : pystr :=
  replace_char 95%N 32%N (replace_char 45%N 32%N (stem name)).

(** The name of [output_file]: [input_file.stem + ".html"]. *)
Definition output_name (name : pystr) : pystr := stem name ++ str ".html".

(** The test of the entry point: [Path(filepath).suffix.lower() == ".md"]. *)
Definition is_markdown (name : pystr) : bool :=
  pystr_eqb (lower (suffix name)) (str ".md").

Section Renderer.

Variable md_convert : pystr -> pystr.

(** The body that [convert] hands to [build_page]: strip, parse, build,
    [get_html]. *)
Definition convert_body (collapsible open_ : list Z) (content : pystr)
    : pystr :=
  let body := strip_frontmatter content in
  let nodes := parse_sections body in
  get_html (build md_convert collapsible open_ nodes).

End Renderer.

End Driver.

Import Driver.

(* ================================================================== *)
(** ** Vocabulary of the properties *)
(* ================================================================== *)

Definition kind_eqb (a b : line_kind) : bool :=
  match a, b with
  | KClose, KClose | KOpen, KOpen | KSummary, KSummary
  | KPlain, KPlain | KContent, KContent => true
  | _, _ => false
  end.

(** Number of lines of kind [k] among [ls]. *)
Definition count_kind (k : line_kind) (ls : list out_line) : nat :=
  length (filter (fun l => kind_eqb (kind l) k) ls).

(** [ls] never closes more containers than it opened, at any prefix,
    and leaves [d] of them open. *)
Definition Balanced (ls : list out_line) (d : nat) : Prop :=
  (forall n, (count_kind KClose (firstn n ls)
              <= count_kind KOpen (firstn n ls))%nat)
  /\ count_kind KOpen ls = (count_kind KClose ls + d)%nat.


(** The builder with other lines and another stack. *)
Definition with_state (b : HtmlBuilder) (ls : list out_line) (s : list Z)
    : HtmlBuilder :=
  {| collapsible_levels := collapsible_levels b;
     open_by_default := open_by_default b;
     lines := ls; stack := s |}.

(** The levels that [_close_until level] pops, and those it leaves. *)
Definition closed_by (level : Z) (stk : list Z) : list Z :=
  filter (fun l => level <=? l) stk.
Definition kept_by (level : Z) (stk : list Z) : list Z :=
  filter (fun l => l <? level) stk.

(** Strictly decreasing from the head on, that is, for [stack],
    strictly increasing from the outermost container to the innermost. *)
Definition Decreasing (stk : list Z) : Prop :=
  StronglySorted (fun x y => y < x) stk.

(** What holds of the builder between any two calls: the configuration
    is the one it was created with, the stack increases strictly from
    the outermost container to the innermost and holds collapsible
    levels only, and the output has opened exactly the containers of the
    stack more than it has closed. *)
Record Inv (collapsible open_ : list Z) (b : HtmlBuilder) : Prop := {
  inv_config : collapsible_levels b = collapsible;
  inv_open : open_by_default b = open_;
  inv_decreasing : Decreasing (stack b);
  inv_members : Forall (fun l => In l collapsible) (stack b);
  inv_balanced : Balanced (lines b) (length (stack b))
}.

(** *** Documents as lines *)

(** What follows a complete line: nothing, or a line feed. *)
Definition line_end (y : pystr) : Prop := y = [] \/ exists t, y = LF :: t.

(** The lines after the first one, each behind its line feed. *)
Definition tail_lines (ls : list pystr) : pystr :=
  flat_map (fun l => LF :: l) ls.

(** A line of the metadata block: no line feed inside, and it does not
    start with the three delimiter characters. *)
Definition plain_line (l : pystr) : Prop :=
  ~ In LF l /\ startswith l delim = false.

(** *** Matches and the spans between them *)

(** The text the cursor stands in. *)
Definition text_of (c : cursor) : pystr := rev (before c) ++ after c.

(** [c'] is [c] moved to the right over [mid]. *)
Definition extends (c c' : cursor) : Prop :=
  exists mid, after c = mid ++ after c' /\ before c' = rev mid ++ before c.

(** A document cut at its heading matches: the span before the first
    match, then alternately a match and the span that follows it. *)
Inductive segment :=
| Gap (t : pystr)
| Matched (m : re_match).

Fixpoint segments (content : pystr) (last : nat) (ms : list re_match)
    : list segment :=
  match ms with
  | [] => [Gap (skipn last content)]
  | m :: ms' =>
      Gap (slice content last (m_start m)) :: Matched m
        :: segments content (m_end m) ms'
  end.

Definition segment_text (content : pystr) (s : segment) : pystr :=
  match s with
  | Gap t => t
  | Matched m => slice content (m_start m) (m_end m)
  end.

(** At least one character that is not whitespace. *)
Definition has_nonspace (t : pystr) : bool :=
  existsb (fun c => negb (isspace c)) t.

(** The nodes a segment stands for: a span with a character that is not
    whitespace is one content node with the span as it is, a span of
    whitespace is no node, a match is one heading node. *)
Definition segment_nodes (content : pystr) (s : segment) : list node :=
  match s with
  | Gap t => if has_nonspace t then [Content t] else []
  | Matched m =>
      [Heading (Z.of_nat (length (group content m 1)))
               (strip (group content m 2))]
  end.

(** What a match of [heading_pattern] in [content] looks like: it starts
    at the start of a line and ends at the end of a line; its text is a
    run [hs] of one to six [#], which is its group 1, then a run [ws] of
    whitespace, then a run [tx] of characters other than the line feed,
    which is its group 2. *)
Definition heading_shape (content : pystr) (m : re_match) : Prop :=
  exists hs ws tx,
    slice content (m_start m) (m_end m) = hs ++ ws ++ tx
    /\ group content m 1 = hs /\ group content m 2 = tx
    /\ Forall (fun x => x = 35%N) hs /\ (1 <= length hs <= 6)%nat
    /\ Forall (fun x => isspace x = true) ws /\ (1 <= length ws)%nat
    /\ Forall (fun x => x <> LF) tx /\ (1 <= length tx)%nat
    /\ (m_start m = 0%nat
        \/ nth_error content (m_start m - 1) = Some LF)
    /\ (m_end m = length content
        \/ nth_error content (m_end m) = Some LF).

(** The matches lie one after the other, from [last] on, within [len]
    characters, and none is empty. *)
Fixpoint in_order (last : nat) (ms : list re_match) (len : nat) : Prop :=
  match ms with
  | [] => (last <= len)%nat
  | m :: ms' =>
      (last <= m_start m)%nat /\ (m_start m < m_end m)%nat
      /\ in_order (m_end m) ms' len
  end.

(** *** The same text behind a prefix

    A cursor, a span and a match of a text, seen in the text with
    [prefix] (given reversed, as [before] is) in front of it. *)
Definition shift_cursor (prefix : pystr) (c : cursor) : cursor :=
  {| before := before c ++ prefix; after := after c |}.

(** Whether a position is the start of a line is not changed by
    [prefix] in front: the position has a character to its left, or
    [prefix] ends with a line feed. *)
Definition bol_agrees (prefix bef : pystr) : Prop :=
  bef <> [] \/ exists p, prefix = LF :: p.

Definition shift_span (e : nat) (sp : nat * nat) : nat * nat :=
  ((e + fst sp)%nat, (e + snd sp)%nat).

Definition shift_match (e : nat) (m : re_match) : re_match :=
  {| m_start := (e + m_start m)%nat; m_end := (e + m_end m)%nat;
     m_spans := List.map (shift_span e) (m_spans m) |}.

Definition shift_outcome (prefix : pystr) (o : outcome) : outcome :=
  (shift_cursor prefix (fst o),
   List.map (shift_span (length prefix)) (snd o)).

(** A text that holds no line feed. *)
Definition one_line (s : pystr) : Prop := ~ In LF s.


(** The value that the items of an object give to a key: that of the
    last item with the key. *)
Fixpoint user_value (items : list (pystr * json)) (k : pystr) : option json :=
  match items with
  | [] => None
  | (k', v) :: rest =>
      match user_value rest k with
      | Some x => Some x
      | None => if pystr_eqb k' k then Some v else None
      end
  end.

(** *** Well-formed node lists *)

(** A heading has a level from 1 to 6 and a text on one line without
    whitespace at either end; a content node has a character that is
    not whitespace. *)
Definition node_ok (n : node) : Prop :=
  match n with
  | Heading level txt =>
      1 <= level <= 6 /\ ~ In LF txt /\ lstrip txt = txt /\ rstrip txt = txt
  | Content txt => has_nonspace txt = true
  end.

(** No content node directly follows another one. *)
Fixpoint no_adjacent_content (l : list node) : Prop :=
  match l with
  | [] => True
  | n :: l' =>
      match n, l' with
      | Content _, Content _ :: _ => False
      | _, _ => no_adjacent_content l'
      end
  end.

(* ================================================================== *)
(** ** The nesting builder *)
(* ================================================================== *)

Section BuilderFacts.

Variable md_convert : pystr -> pystr.

Lemma with_state_id b : with_state b (lines b) (stack b) = b.
Proof. destruct b; reflexivity. Qed.

Lemma StronglySorted_snoc (A : Type) (R : A -> A -> Prop) l x :
  StronglySorted R l -> Forall (fun y => R y x) l ->
  StronglySorted R (l ++ [x]).
Proof.
  induction 1 as [|y l Hs IH Hall]; intros Hx; simpl.
  - repeat constructor.
  - inversion Hx; subst. constructor.
    + now apply IH.
    + apply Forall_app. split; [assumption | now repeat constructor].
Qed.

Lemma Decreasing_py_stack stk :
  Decreasing stk -> StronglySorted Z.lt (rev stk).
Proof.
  induction 1 as [|x l Hs IH Hall]; simpl.
  - constructor.
  - apply StronglySorted_snoc; [assumption|].
    apply Forall_rev. exact Hall.
Qed.

Lemma Decreasing_NoDup stk : Decreasing stk -> NoDup stk.
Proof.
  induction 1 as [|x l Hs IH Hall]; constructor; [|assumption].
  intros Hin. rewrite Forall_forall in Hall. specialize (Hall _ Hin). lia.
Qed.

Lemma Decreasing_tail x stk : Decreasing (x :: stk) -> Decreasing stk.
Proof. now inversion 1. Qed.

Lemma filter_all_true (A : Type) (f : A -> bool) l :
  Forall (fun x => f x = true) l -> filter f l = l.
Proof.
  induction 1 as [|x l Hx _ IH]; simpl; [reflexivity|].
  now rewrite Hx, IH.
Qed.

Lemma filter_all_false (A : Type) (f : A -> bool) l :
  Forall (fun x => f x = false) l -> filter f l = [].
Proof.
  induction 1 as [|x l Hx _ IH]; simpl; [reflexivity|].
  now rewrite Hx, IH.
Qed.

Lemma below_level_kept level top stk :
  Decreasing (top :: stk) -> top < level ->
  closed_by level (top :: stk) = [] /\ kept_by level (top :: stk) = top :: stk.
Proof.
  intros Hd Hlt. inversion Hd as [|? ? _ Hall]; subst.
  assert (Hb : Forall (fun l => l < level) (top :: stk)).
  { constructor; [assumption|].
    eapply Forall_impl; [|exact Hall]. simpl. intros; lia. }
  split.
  - apply filter_all_false. eapply Forall_impl; [|exact Hb].
    simpl. intros a Ha. apply Z.leb_gt. exact Ha.
  - apply filter_all_true. eapply Forall_impl; [|exact Hb].
    simpl. intros a Ha. apply Z.ltb_lt. exact Ha.
Qed.

Lemma closed_then_kept level stk :
  Decreasing stk -> stk = closed_by level stk ++ kept_by level stk.
Proof.
  induction stk as [|top stk IH]; intros Hd; [reflexivity|].
  destruct (Z.lt_ge_cases top level) as [Hlt|Hge].
  - destruct (below_level_kept level top stk Hd Hlt) as [-> ->]. reflexivity.
  - unfold closed_by, kept_by in *. simpl.
    replace (level <=? top) with true by (symmetry; now apply Z.leb_le).
    replace (top <? level) with false by (symmetry; now apply Z.ltb_ge).
    simpl. f_equal. apply IH. eapply Decreasing_tail; eassumption.
Qed.

Lemma kept_by_top level stk :
  Decreasing stk ->
  kept_by level stk = [] \/
  exists top rest, kept_by level stk = top :: rest /\ top < level.
Proof.
  intros _. destruct (kept_by level stk) as [|top rest] eqn:E; [now left|].
  right. exists top, rest. split; [reflexivity|].
  assert (Hin : In top (kept_by level stk)) by (rewrite E; now left).
  apply filter_In in Hin. destruct Hin as [_ Hlt]. now apply Z.ltb_lt.
Qed.

Lemma close_until_loop_spec level stk :
  forall b, Decreasing stk -> stack b = stk ->
  close_until_loop level stk b =
  with_state b (lines b ++ repeat close_line (length (closed_by level stk)))
             (kept_by level stk).
Proof.
  induction stk as [|top stk IH]; intros b Hd Hs.
  - simpl. rewrite app_nil_r, <- Hs. symmetry. apply with_state_id.
  - simpl close_until_loop. destruct (top >=? level) eqn:E.
    + rewrite IH; [|eapply Decreasing_tail; eassumption | reflexivity].
      unfold closed_by, kept_by. simpl filter.
      replace (level <=? top) with true by (symmetry; apply Z.leb_le; lia).
      replace (top <? level) with false by (symmetry; apply Z.ltb_ge; lia).
      unfold with_state. simpl. rewrite <- app_assoc. reflexivity.
    + assert (Hlt : top < level) by lia.
      destruct (below_level_kept level top stk Hd Hlt) as [-> ->].
      simpl. rewrite app_nil_r, <- Hs. symmetry. apply with_state_id.
Qed.

Lemma close_all_loop_spec stk :
  forall b, close_all_loop stk b =
            with_state b (lines b ++ repeat close_line (length stk))
                       (match stk with [] => stack b | _ => [] end).
Proof.
  induction stk as [|top stk IH]; intros b.
  - simpl. rewrite app_nil_r. symmetry. apply with_state_id.
  - simpl close_all_loop. rewrite IH. unfold with_state. simpl.
    rewrite <- app_assoc. simpl. destruct stk; reflexivity.
Qed.

Lemma close_all_spec b :
  close_all b = with_state b (lines b ++ repeat close_line (length (stack b))) [].
Proof.
  unfold close_all. rewrite close_all_loop_spec.
  destruct b as [c o ls [|x stk]]; reflexivity.
Qed.

(** [add_heading] in closed form, on a stack that increases strictly
    from the outermost container to the innermost. *)
Lemma add_heading_closed_form level txt b :
  Decreasing (stack b) ->
  let kept := kept_by level (stack b) in
  let pad := repeat_str (str "  ") (length kept) in
  let closes := repeat close_line (length (closed_by level (stack b))) in
  add_heading level txt b =
  if py_in level (collapsible_levels b) then
    with_state b
      (lines b ++ closes
         ++ [ {| kind := KOpen;
                 text := open_text pad level
                           (if py_in level (open_by_default b)
                            then str " open" else []) |};
              {| kind := KSummary; text := summary_text pad level txt |} ])
      (level :: kept)
  else
    with_state b
      (lines b ++ closes
         ++ [ {| kind := KPlain; text := plain_text pad level txt |} ])
      kept.
Proof.
  intros Hd kept pad closes. unfold add_heading, _close_until.
  rewrite (close_until_loop_spec level (stack b) b Hd eq_refl).
  fold kept closes. unfold _pad, open_attr, emit, push, with_state. simpl.
  rewrite Nat.add_0_r. fold pad.
  destruct (py_in level (collapsible_levels b)); simpl;
    rewrite <- !app_assoc; reflexivity.
Qed.

(** *** Counting opening and closing lines *)

Lemma count_kind_app k ls1 ls2 :
  count_kind k (ls1 ++ ls2) = (count_kind k ls1 + count_kind k ls2)%nat.
Proof. unfold count_kind. now rewrite filter_app, length_app. Qed.

Lemma firstn_snoc_cases (A : Type) (l : list A) x n :
  firstn n (l ++ [x]) = firstn n l \/ firstn n (l ++ [x]) = l ++ [x].
Proof.
  destruct (Nat.le_gt_cases n (length l)) as [Hle|Hgt].
  - left. rewrite firstn_app.
    replace (n - length l)%nat with O by lia. simpl. apply app_nil_r.
  - right. apply firstn_all2. rewrite length_app. simpl. lia.
Qed.

Lemma Balanced_nil : Balanced [] 0.
Proof.
  split; [|reflexivity]. intros n. rewrite firstn_nil. apply Nat.le_refl.
Qed.

Lemma Balanced_snoc ls d l d' :
  Balanced ls d ->
  (count_kind KOpen [l] + d = count_kind KClose [l] + d')%nat ->
  Balanced (ls ++ [l]) d'.
Proof.
  intros [Hpre Htot] Hl. split.
  - intros n. destruct (firstn_snoc_cases _ ls l n) as [-> | ->].
    + apply Hpre.
    + rewrite !count_kind_app. lia.
  - rewrite !count_kind_app. lia.
Qed.

Lemma Balanced_open ls d txt :
  Balanced ls d -> Balanced (ls ++ [{| kind := KOpen; text := txt |}]) (S d).
Proof. intros H. eapply Balanced_snoc; [exact H|]. cbn. lia. Qed.

Lemma Balanced_close ls d :
  Balanced ls (S d) -> Balanced (ls ++ [close_line]) d.
Proof. intros H. eapply Balanced_snoc; [exact H|]. cbn. lia. Qed.

Lemma Balanced_other ls d l :
  kind l <> KOpen -> kind l <> KClose ->
  Balanced ls d -> Balanced (ls ++ [l]) d.
Proof.
  intros Ho Hc H. eapply Balanced_snoc; [exact H|].
  unfold count_kind. simpl. destruct (kind l); simpl; congruence.
Qed.

Lemma Balanced_closes ls n :
  forall d, Balanced ls (n + d) -> Balanced (ls ++ repeat close_line n) d.
Proof.
  revert ls. induction n as [|n IH]; intros ls d H; simpl.
  - now rewrite app_nil_r.
  - change (close_line :: repeat close_line n)
      with ([close_line] ++ repeat close_line n).
    rewrite app_assoc. apply IH. apply Balanced_close.
    replace (S (n + d)) with (S n + d)%nat by lia. exact H.
Qed.

(** *** The invariant of the builder *)

Lemma py_in_In x l : py_in x l = true -> In x l.
Proof.
  unfold py_in. intros H. apply existsb_exists in H.
  destruct H as [y [Hy E]]. apply Z.eqb_eq in E. now subst.
Qed.

Lemma Inv_init collapsible open_ :
  Inv collapsible open_ (init collapsible open_).
Proof.
  constructor; simpl.
  - reflexivity.
  - reflexivity.
  - constructor.
  - constructor.
  - apply Balanced_nil.
Qed.

Lemma kept_by_Decreasing level stk :
  Decreasing stk -> Decreasing (level :: kept_by level stk).
Proof.
  intros Hd. constructor.
  - clear -Hd. induction Hd as [|x l Hs IH Hall]; simpl; [constructor|].
    unfold kept_by in *. simpl. destruct (x <? level); [|assumption].
    constructor; [assumption|].
    rewrite Forall_forall in *. intros y Hy. apply filter_In in Hy.
    apply Hall, Hy.
  - apply Forall_forall. intros y Hy. apply filter_In in Hy.
    apply Z.ltb_lt, Hy.
Qed.

Lemma Inv_add_heading collapsible open_ level txt b :
  Inv collapsible open_ b -> Inv collapsible open_ (add_heading level txt b).
Proof.
  intros [Hc Ho Hd Hm Hb].
  rewrite (add_heading_closed_form level txt b Hd). cbv zeta.
  assert (Hk : Decreasing (level :: kept_by level (stack b)))
    by now apply kept_by_Decreasing.
  assert (Hkm : Forall (fun l => In l collapsible) (kept_by level (stack b))).
  { apply Forall_forall. intros y Hy. apply filter_In in Hy.
    rewrite Forall_forall in Hm. apply Hm, Hy. }
  assert (Hcl : Balanced (lines b ++ repeat close_line
                            (length (closed_by level (stack b))))
                         (length (kept_by level (stack b)))).
  { apply Balanced_closes. rewrite <- length_app, <- closed_then_kept; auto. }
  destruct (py_in level (collapsible_levels b)) eqn:E.
  - constructor; simpl; auto.
    + constructor; [|assumption]. apply py_in_In. now rewrite <- Hc.
    + rewrite app_assoc.
      change [?a; ?c] with ([a] ++ [c]). rewrite app_assoc.
      apply Balanced_other; [discriminate | discriminate |].
      now apply Balanced_open.
  - constructor; simpl; auto.
    + eapply Decreasing_tail; eassumption.
    + rewrite app_assoc. apply Balanced_other; [discriminate..|assumption].
Qed.

Lemma emit_lines_spec pad html_lines :
  forall b,
  fold_left (fun b line => emit b (content_line pad line)) html_lines b =
  with_state b (lines b ++ List.map (content_line pad) html_lines) (stack b).
Proof.
  induction html_lines as [|l ls IH]; intros b; simpl.
  - rewrite app_nil_r. symmetry. apply with_state_id.
  - rewrite IH. unfold with_state, emit. simpl.
    rewrite <- app_assoc. reflexivity.
Qed.

Lemma Balanced_content ls d pad html_lines :
  Balanced ls d -> Balanced (ls ++ List.map (content_line pad) html_lines) d.
Proof.
  revert ls. induction html_lines as [|l rest IH]; intros ls H; simpl.
  - now rewrite app_nil_r.
  - change (?a :: ?r) with ([a] ++ r). rewrite app_assoc. apply IH.
    apply Balanced_other; [discriminate..|assumption].
Qed.

Lemma add_content_spec txt b :
  exists ls, Forall (fun l => kind l = KContent) ls /\
             add_content md_convert txt b = with_state b (lines b ++ ls) (stack b).
Proof.
  unfold add_content.
  destruct (negb (truthy (md_to_html md_convert txt))).
  - exists []. split; [constructor|].
    rewrite app_nil_r. symmetry. apply with_state_id.
  - rewrite emit_lines_spec. eexists. split; [|reflexivity].
    apply Forall_forall. intros l Hl. apply in_map_iff in Hl.
    destruct Hl as [x [<- _]]. reflexivity.
Qed.

Lemma Inv_add_content collapsible open_ txt b :
  Inv collapsible open_ b -> Inv collapsible open_ (add_content md_convert txt b).
Proof.
  intros [Hc Ho Hd Hm Hb]. unfold add_content.
  destruct (negb (truthy (md_to_html md_convert txt))).
  - now constructor.
  - rewrite emit_lines_spec. constructor; simpl; auto.
    now apply Balanced_content.
Qed.

Lemma Inv_close_all collapsible open_ b :
  Inv collapsible open_ b -> Inv collapsible open_ (close_all b).
Proof.
  intros [Hc Ho Hd Hm Hb]. rewrite close_all_spec.
  constructor; simpl.
  - assumption.
  - assumption.
  - constructor.
  - constructor.
  - apply Balanced_closes. now rewrite Nat.add_0_r.
Qed.

Lemma Inv_run_ops collapsible open_ ops :
  forall b, Inv collapsible open_ b -> Inv collapsible open_ (run_ops md_convert b ops).
Proof.
  induction ops as [|o ops IH]; intros b Hb; simpl; [assumption|].
  apply IH. destruct o; simpl.
  - now apply Inv_add_heading.
  - now apply Inv_add_content.
  - now apply Inv_close_all.
Qed.


(** *** Kinds and texts *)











(** C2: whatever calls came before, [add_heading level txt] first emits
    one closing marker, the line [</details>], for every open container
    whose level is [>= level] and pops it; these are the innermost
    containers, and what is left of the stack is empty or has a top
    strictly below [level].  Then, when [level] is collapsible, it emits
    the opening tag [<details class="niveauN">], where N is the level in
    decimal, with [ open] before the [>] exactly when [level] is open by
    default, then the summary line
    [<summary class="summary-hN">txt</summary>] that holds the heading
    text as it is, and pushes [level]; otherwise it emits the plain
    heading [<hN>txt</hN>] and pushes nothing.  The lines are indented
    by two spaces for each container left open (the summary by two
    more).  For the levels 1 to 6, N is the digit. *)
Theorem add_heading_transition collapsible open_ ops level txt :
  let b := run_ops md_convert (init collapsible open_) ops in
  let closed := closed_by level (stack b) in
  let kept := kept_by level (stack b) in
  let pad := repeat_str (str "  ") (length kept) in
  let closes :=
    repeat {| kind := KClose; text := str "</details>" |} (length closed) in
  let open_mark := if py_in level open_ then str " open" else [] in
  let N := str_of_int level in
  stack b = closed ++ kept
  /\ (kept = [] \/ exists top rest, kept = top :: rest /\ top < level)
  /\ add_heading level txt b =
     (if py_in level collapsible then
        with_state b
          (lines b ++ closes
             ++ [ {| kind := KOpen;
                     text := pad ++ str "<details class=" ++ dq
                               ++ str "niveau" ++ N ++ dq
                               ++ open_mark ++ str ">" |};
                  {| kind := KSummary;
                     text := pad ++ str "  <summary class=" ++ dq
                               ++ str "summary-h" ++ N ++ dq ++ str ">"
                               ++ txt ++ str "</summary>" |} ])
          (level :: kept)
      else
        with_state b
          (lines b ++ closes
             ++ [ {| kind := KPlain;
                     text := pad ++ str "<h" ++ N ++ str ">" ++ txt
                               ++ str "</h" ++ N ++ str ">" |} ])
          kept)
  /\ List.map str_of_int [1; 2; 3; 4; 5; 6]
     = [str "1"; str "2"; str "3"; str "4"; str "5"; str "6"].
Proof.
  intros b closed kept pad closes open_mark N.
  destruct (Inv_run_ops collapsible open_ ops _ (Inv_init collapsible open_))
    as [Hc Ho Hd _ _]. fold b in Hc, Ho, Hd.
  split; [now apply closed_then_kept|].
  split; [now apply kept_by_top|].
  split; [|reflexivity].
  rewrite (add_heading_closed_form level txt b Hd). cbv zeta.
  rewrite Hc, Ho. reflexivity.
Qed.

(** One call spelled out: a heading of level 2, open by default, on a
    new builder. *)
Example add_heading_reads :
  lines (add_heading 2 (str "A & B") (init [2; 3] [2]))
  = [ {| kind := KOpen;
         text := str "<details class=" ++ dq ++ str "niveau2" ++ dq
                   ++ str " open>" |};
      {| kind := KSummary;
         text := str "  <summary class=" ++ dq ++ str "summary-h2" ++ dq
                   ++ str ">A & B</summary>" |} ].
Proof. vm_compute. reflexivity. Qed.


(** C9: after any sequence of [add_heading], [add_content] and
    [close_all] calls the stack is strictly increasing from the
    outermost container to the innermost, each of its levels belongs to
    the collapsible levels, and no level occurs twice. *)
Theorem stack_strictly_increasing collapsible open_ ops :
  let b := run_ops md_convert (init collapsible open_) ops in
  StronglySorted Z.lt (py_stack b)
  /\ Forall (fun l => In l collapsible) (py_stack b)
  /\ NoDup (py_stack b).
Proof.
  intros b.
  destruct (Inv_run_ops collapsible open_ ops _ (Inv_init collapsible open_))
    as [_ _ Hd Hm _]. fold b in Hd, Hm. unfold py_stack.
  split; [now apply Decreasing_py_stack|].
  split; [now apply Forall_rev|].
  apply NoDup_rev. now apply Decreasing_NoDup.
Qed.

End BuilderFacts.


(* ================================================================== *)
(** ** The index generator *)
(* ================================================================== *)

Lemma pystr_eqb_eq a b : pystr_eqb a b = true <-> a = b.
Proof.
  revert b. induction a as [|x a IH]; intros [|y b]; simpl;
    try (split; [discriminate | discriminate]); [tauto|].
  unfold char_eqb. rewrite andb_true_iff, N.eqb_eq, IH.
  split; [intros [-> ->]; reflexivity | intros E; now inversion E].
Qed.

Lemma pystr_ltb_asym a b : pystr_ltb a b = true -> pystr_ltb b a = false.
Proof.
  revert b. induction a as [|x a IH]; intros [|y b]; simpl; try congruence.
  intros H. apply orb_true_iff in H. apply orb_false_iff.
  destruct H as [H | H].
  - apply N.ltb_lt in H. split; [apply N.ltb_ge; lia|].
    replace (y =? x)%N with false; [reflexivity|].
    symmetry. apply N.eqb_neq. lia.
  - apply andb_true_iff in H. destruct H as [E L]. apply N.eqb_eq in E. subst y.
    split; [apply N.ltb_irrefl|]. rewrite N.eqb_refl. simpl. now apply IH.
Qed.

Lemma pystr_le_trans a b c :
  pystr_ltb b a = false -> pystr_ltb c b = false -> pystr_ltb c a = false.
Proof.
  revert b c. induction a as [|x a IH]; intros [|y b] [|z c]; simpl;
    try congruence.
  intros H1 H2. apply orb_false_iff in H1, H2. apply orb_false_iff.
  destruct H1 as [L1 E1], H2 as [L2 E2].
  apply N.ltb_ge in L1, L2. split; [apply N.ltb_ge; lia|].
  destruct (N.eqb_spec z x) as [->|Hne]; [|reflexivity]. simpl.
  assert (y = x) by lia. subst y.
  rewrite N.eqb_refl in E1, E2. simpl in E1, E2. eapply IH; eassumption.
Qed.

Lemma insert_sorted_perm x l : Permutation (insert_sorted x l) (x :: l).
Proof.
  induction l as [|y l IH]; simpl; [reflexivity|].
  destruct (pystr_ltb y x); [|reflexivity].
  rewrite IH. apply perm_swap.
Qed.

Lemma sorted_perm l : Permutation (sorted l) l.
Proof.
  induction l as [|x l IH]; simpl; [reflexivity|].
  rewrite insert_sorted_perm. now constructor.
Qed.

Lemma insert_sorted_ordered x l :
  StronglySorted (fun a b => pystr_ltb b a = false) l ->
  StronglySorted (fun a b => pystr_ltb b a = false) (insert_sorted x l).
Proof.
  induction 1 as [|y l Hs IH Hall]; simpl.
  - repeat constructor.
  - destruct (pystr_ltb y x) eqn:E.
    + constructor; [assumption|].
      eapply Permutation_Forall; [symmetry; apply insert_sorted_perm|].
      constructor; [now apply pystr_ltb_asym | assumption].
    + constructor; [now constructor|].
      constructor; [assumption|].
      eapply Forall_impl; [|exact Hall]. simpl. intros z Hz.
      eapply pystr_le_trans; eassumption.
Qed.

Lemma sorted_ordered l :
  StronglySorted (fun a b => pystr_ltb b a = false) (sorted l).
Proof.
  induction l as [|x l IH]; simpl; [constructor|].
  now apply insert_sorted_ordered.
Qed.

Lemma filter_filter (A : Type) (f g : A -> bool) l :
  filter f (filter g l) = filter (fun x => g x && f x) l.
Proof.
  induction l as [|x l IH]; simpl; [reflexivity|].
  destruct (g x); simpl; [destruct (f x)|]; now rewrite IH.
Qed.

Lemma rfind_dot_app a b :
  forall i, rfind_dot (a ++ b) i =
            match rfind_dot b (i + length a) with
            | Some j => Some j
            | None => rfind_dot a i
            end.
Proof.
  induction a as [|c a IH]; intros i; simpl.
  - rewrite Nat.add_0_r. now destruct (rfind_dot b i).
  - rewrite IH. replace (i + S (length a))%nat with (S i + length a)%nat by lia.
    destruct (rfind_dot b (S i + length a)); reflexivity.
Qed.

Lemma stem_html c base :
  stem ((c :: base) ++ str ".html") = c :: base.
Proof.
  assert (Hlen : (0 < length (c :: base))%nat) by (simpl; lia).
  generalize dependent (c :: base). intros name Hlen.
  unfold stem. rewrite rfind_dot_app.
  change (rfind_dot (str ".html") (0 + length name))
    with (Some (0 + length name)%nat).
  rewrite length_app. change (length (str ".html")) with 5%nat.
  replace ((0 <? 0 + length name) &&
           (0 + length name <? length name + 5 - 1))%nat with true.
  - rewrite Nat.add_0_l, firstn_app, firstn_all, Nat.sub_diag.
    simpl. apply app_nil_r.
  - symmetry. apply andb_true_iff. split; apply Nat.ltb_lt; lia.
Qed.

(** C8, as the code has it: the listing holds every entry whose name
    ends in [.html] and whose lowercased name is not [index.html], once
    for each time the directory yields it, in ascending order of the
    names; there is one link per listed file, whose target is the name
    and whose label is the stem with hyphens and underscores replaced by
    spaces (the stem of [base.html] being [base] for a non-empty
    [base]); the page written holds these links, and nothing is written
    when there is none; over [b.html], [a.html] and [index.html] the
    listing has exactly two entries, [a] before [b]. *)
Theorem index_listing entries :
  Permutation (html_files entries)
    (filter (fun name => endswith name (str ".html")
                         && negb (pystr_eqb (lower name) (str "index.html")))
            entries)
  /\ StronglySorted (fun a b => pystr_ltb b a = false) (html_files entries)
  /\ items entries =
     List.map (fun name =>
                 str "    <li><a href=" ++ dq ++ name ++ dq ++ str ">"
                   ++ replace_char 95%N 32%N
                        (replace_char 45%N 32%N (stem name))
                   ++ str "</a></li>")
              (html_files entries)
  /\ (forall c base, stem ((c :: base) ++ str ".html") = c :: base)
  /\ (forall css_file lang,
        generate_index entries css_file lang =
        match html_files entries with
        | [] => None
        | _ :: _ => Some (page css_file lang (join nl (items entries)))
        end)
  /\ items [str "b.html"; str "a.html"; str "index.html"] =
     [ str "    <li><a href=" ++ dq ++ str "a.html" ++ dq
         ++ str ">a</a></li>";
       str "    <li><a href=" ++ dq ++ str "b.html" ++ dq
         ++ str ">b</a></li>" ].
Proof.
  split; [|split; [|split; [|split; [|split]]]].
  - unfold html_files, glob_html. rewrite sorted_perm, filter_filter.
    reflexivity.
  - apply sorted_ordered.
  - reflexivity.
  - apply stem_html.
  - reflexivity.
  - vm_compute. reflexivity.
Qed.

(** C8 fails as stated: [Index.html] is an [*.html] file other than
    [index.html], and the listing leaves it out. *)
Lemma index_listing_skips_Index_html :
  let entries := [str "a.html"; str "Index.html"] in
  In (str "Index.html") (glob_html entries)
  /\ str "Index.html" <> str "index.html"
  /\ ~ In (str "Index.html") (html_files entries)
  /\ length (items entries) = 1%nat.
Proof.
  cbv zeta. split; [|split; [|split]].
  - vm_compute. right. left. reflexivity.
  - vm_compute. discriminate.
  - vm_compute. intros [H | []]. discriminate H.
  - vm_compute. reflexivity.
Qed.

(** C10: a name whose lowercased form is [index.html] is never listed,
    whatever its case. *)
Theorem index_excluded_ignoring_case entries name :
  lower name = str "index.html" ->
  ~ In name (html_files entries).
Proof.
  intros E Hin. unfold html_files in Hin.
  eapply Permutation_in in Hin; [|apply sorted_perm].
  apply filter_In in Hin. destruct Hin as [_ Hne].
  apply negb_true_iff in Hne.
  assert (Ht : pystr_eqb (lower name) index_name = true)
    by now apply pystr_eqb_eq.
  congruence.
Qed.

Lemma index_excluded_ignoring_case_witness :
  let entries := [str "a.html"; str "INDEX.HTML"; str "Index.html";
                  str "index.html"] in
  (lower (str "INDEX.HTML") = str "index.html"
   /\ ~ In (str "INDEX.HTML") (html_files entries))
  /\ (lower (str "Index.html") = str "index.html"
      /\ ~ In (str "Index.html") (html_files entries)).
Proof.
  cbv zeta. split; split.
  - vm_compute. reflexivity.
  - apply index_excluded_ignoring_case. vm_compute. reflexivity.
  - vm_compute. reflexivity.
  - apply index_excluded_ignoring_case. vm_compute. reflexivity.
Defined.

(* ================================================================== *)
(** ** The frontmatter stripper *)
(* ================================================================== *)

Lemma find_from_cons sub c s i :
  find_from sub (c :: s) i =
  if startswith (c :: s) sub then Z.of_nat i else find_from sub s (S i).
Proof. reflexivity. Qed.

Lemma startswith_app s r : startswith (s ++ r) s = true.
Proof.
  induction s as [|c s IH]; simpl; [reflexivity|].
  unfold char_eqb. now rewrite N.eqb_refl, IH.
Qed.

Lemma startswith_split s p :
  startswith s p = true -> exists r, s = p ++ r.
Proof.
  revert s. induction p as [|x p IH]; intros s H.
  - now exists s.
  - destruct s as [|y s]; simpl in H; [discriminate|].
    apply andb_true_iff in H. destruct H as [E H].
    apply N.eqb_eq in E. subst y.
    destruct (IH _ H) as [r ->]. now exists r.
Qed.

(** Whether a complete line starts with the delimiter does not depend
    on what follows the line. *)
Lemma startswith_delim_line l y :
  ~ In LF l -> line_end y ->
  startswith (l ++ y) delim = startswith l delim.
Proof.
  intros Hl Hy.
  assert (Hy' : startswith y delim = false
                /\ startswith y (skipn 1 delim) = false
                /\ startswith y (skipn 2 delim) = false)
    by (destruct Hy as [-> | [t ->]]; repeat split; reflexivity).
  destruct Hy' as (H0 & H1 & H2).
  destruct l as [|a [|b [|c l]]]; simpl app.
  - exact H0.
  - change (startswith (a :: y) delim)
      with (char_eqb 45%N a && startswith y (skipn 1 delim)).
    rewrite H1, andb_false_r. simpl. now rewrite andb_false_r.
  - change (startswith (a :: b :: y) delim)
      with (char_eqb 45%N a && (char_eqb 45%N b
                                && startswith y (skipn 2 delim))).
    rewrite H2, !andb_false_r. simpl. now rewrite !andb_false_r.
  - reflexivity.
Qed.

Lemma find_from_skip_line l y i :
  ~ In LF l ->
  find_from (nl ++ delim) (l ++ y) i
  = find_from (nl ++ delim) y (i + length l).
Proof.
  revert i. induction l as [|c l IH]; intros i Hl; simpl app.
  - simpl. now rewrite Nat.add_0_r.
  - rewrite find_from_cons.
    destruct (startswith (c :: l ++ y) _) eqn:E.
    + exfalso. apply Hl. left.
      change (char_eqb LF c && startswith (l ++ y) delim = true) in E.
      apply andb_true_iff in E. destruct E as [E _].
      apply N.eqb_eq in E. now symmetry.
    + rewrite IH by (intros H; apply Hl; now right).
      f_equal. simpl. lia.
Qed.

Lemma join_lines l0 ls : join nl (l0 :: ls) = l0 ++ tail_lines ls.
Proof.
  revert l0. induction ls as [|l ls IH]; intros l0.
  - simpl. now rewrite app_nil_r.
  - change (join nl (l0 :: l :: ls)) with (l0 ++ nl ++ join nl (l :: ls)).
    rewrite IH. reflexivity.
Qed.

Lemma tail_lines_end ls y : line_end y -> line_end (tail_lines ls ++ y).
Proof.
  intros Hy. destruct ls as [|l ls]; [exact Hy|].
  right. simpl. eexists. reflexivity.
Qed.

Lemma find_from_plain_lines ls y i :
  Forall plain_line ls -> line_end y ->
  find_from (nl ++ delim) (tail_lines ls ++ y) i
  = find_from (nl ++ delim) y (i + length (tail_lines ls)).
Proof.
  intros Hls Hy. revert i.
  induction Hls as [|l ls [Hl Hd] _ IH]; intros i.
  - simpl. now rewrite Nat.add_0_r.
  - simpl tail_lines. rewrite <- !app_comm_cons, <- app_assoc.
    rewrite find_from_cons.
    destruct (startswith (LF :: l ++ tail_lines ls ++ y) _) eqn:E.
    + exfalso.
      change (startswith (l ++ tail_lines ls ++ y) delim = true) in E.
      rewrite startswith_delim_line in E; auto using tail_lines_end.
      congruence.
    + rewrite find_from_skip_line by assumption. rewrite IH.
      f_equal. simpl length. rewrite length_app. simpl. lia.
Qed.

Lemma lstrip_tail_lines rest :
  lstrip_chars nl (tail_lines rest) = lstrip_chars nl (join nl rest).
Proof.
  destruct rest as [|r rest]; [reflexivity|].
  rewrite join_lines. reflexivity.
Qed.

Lemma tail_lines_app ls1 ls2 :
  tail_lines (ls1 ++ ls2) = tail_lines ls1 ++ tail_lines ls2.
Proof. apply flat_map_app. Qed.

Lemma find_from_hit sub r i : find_from sub (sub ++ r) i = Z.of_nat i.
Proof.
  destruct sub as [|c sub]; simpl app.
  - destruct r; reflexivity.
  - rewrite find_from_cons.
    change (c :: sub ++ r) with ((c :: sub) ++ r).
    now rewrite startswith_app.
Qed.

(** The text behind the opening delimiter: [pre], free of later lines
    that start with the delimiter characters, then whatever [find]
    meets first. *)
Lemma strip_frontmatter_scan ls y :
  Forall plain_line ls -> line_end y ->
  strip_frontmatter (delim ++ tail_lines ls ++ y) =
  let end_ := find_from (nl ++ delim) y (3 + length (tail_lines ls)) in
  if end_ =? -1 then delim ++ tail_lines ls ++ y
  else lstrip_chars nl (slice_from (delim ++ tail_lines ls ++ y) (end_ + 4)).
Proof.
  intros Hls Hy. unfold strip_frontmatter.
  rewrite startswith_app. simpl negb. cbv iota.
  unfold find.
  replace (length (delim ++ tail_lines ls ++ y) <? 3)%nat with false
    by (symmetry; apply Nat.ltb_ge; rewrite length_app; simpl; lia).
  change (skipn 3 (delim ++ tail_lines ls ++ y)) with (tail_lines ls ++ y).
  rewrite find_from_plain_lines by assumption. reflexivity.
Qed.

(** C1, as the code has it: for a document whose first line is the
    delimiter, followed by lines [fm] none of which starts with the
    three delimiter characters, then by a line that is the delimiter
    alone, then by the lines [rest], [strip_frontmatter] returns exactly
    the text after that closing line, without its leading line feeds:
    nothing of the two delimiter lines and of what they enclose is
    left. *)
Theorem strip_frontmatter_closing_line fm rest :
  Forall plain_line fm ->
  strip_frontmatter (join nl (delim :: fm ++ delim :: rest))
  = lstrip_chars nl (join nl rest).
Proof.
  intros Hfm. rewrite join_lines, tail_lines_app.
  change (tail_lines (delim :: rest))
    with ((nl ++ delim) ++ tail_lines rest).
  rewrite strip_frontmatter_scan;
    [| assumption | right; eexists; reflexivity].
  cbv zeta. rewrite find_from_hit.
  set (n := length (tail_lines fm)).
  replace (Z.of_nat (3 + n) =? -1) with false
    by (symmetry; apply Z.eqb_neq; lia).
  unfold slice_from.
  replace (Z.of_nat (3 + n) + 4 <? 0) with false
    by (symmetry; apply Z.ltb_ge; lia).
  replace (Z.to_nat (Z.of_nat (3 + n) + 4))
    with (length (delim ++ tail_lines fm ++ nl ++ delim))
    by (rewrite !length_app; fold n; simpl; lia).
  rewrite <- lstrip_tail_lines. f_equal.
  replace (delim ++ tail_lines fm ++ (nl ++ delim) ++ tail_lines rest)
    with ((delim ++ tail_lines fm ++ nl ++ delim) ++ tail_lines rest)
    by (now rewrite <- !app_assoc).
  rewrite skipn_app, skipn_all, Nat.sub_diag. reflexivity.
Qed.

Lemma strip_frontmatter_closing_line_witness :
  Forall plain_line [str "title: x"]
  /\ strip_frontmatter
       (join nl [delim; str "title: x"; delim; str ""; str "# T"])
     = str "# T".
Proof.
  assert (H : Forall plain_line [str "title: x"]).
  { constructor; [|constructor]. split; [|reflexivity].
    vm_compute. intuition discriminate. }
  split; [exact H|].
  exact (strip_frontmatter_closing_line
           [str "title: x"] [str ""; str "# T"] H).
Defined.

(** C1 fails as stated: the first line is the delimiter and the third
    line is the delimiter alone, yet the text returned is not the text
    after that line; it starts inside the second line, which merely
    begins with the delimiter characters. *)
Lemma strip_frontmatter_stops_early :
  let fm := [str "---x"] in
  let rest := [str "body"] in
  Forall (fun l => ~ In LF l /\ l <> delim) fm
  /\ strip_frontmatter (join nl (delim :: fm ++ delim :: rest))
     = join nl [str "x"; delim; str "body"]
  /\ strip_frontmatter (join nl (delim :: fm ++ delim :: rest))
     <> lstrip_chars nl (join nl rest).
Proof.
  cbv zeta. split; [|split].
  - constructor; [|constructor]. split.
    + vm_compute. intuition discriminate.
    + vm_compute. discriminate.
  - vm_compute. reflexivity.
  - vm_compute. discriminate.
Qed.

(** C6, as the code has it: [strip_frontmatter] returns its input
    unchanged when the input does not start with the three delimiter
    characters, and when, whatever its first line, no later line starts
    with them. *)
Theorem strip_frontmatter_identity :
  (forall content,
      startswith content delim = false ->
      strip_frontmatter content = content)
  /\ (forall first ls,
        ~ In LF first -> Forall plain_line ls ->
        strip_frontmatter (join nl (first :: ls)) = join nl (first :: ls)).
Proof.
  split.
  - intros content H. unfold strip_frontmatter. now rewrite H.
  - intros first ls Hf Hls. rewrite join_lines.
    destruct (startswith (first ++ tail_lines ls) delim) eqn:E.
    + assert (E' := E).
      rewrite <- (app_nil_r (tail_lines ls)) in E'.
      rewrite startswith_delim_line in E';
        [| assumption | apply tail_lines_end; now left].
      apply startswith_split in E'. destruct E' as [r ->].
      assert (Hr : ~ In LF r).
      { intros H. apply Hf. apply in_or_app. now right. }
      unfold strip_frontmatter. rewrite E. simpl negb. cbv iota.
      unfold find.
      replace (length ((delim ++ r) ++ tail_lines ls) <? 3)%nat with false
        by (symmetry; apply Nat.ltb_ge; rewrite !length_app; simpl; lia).
      change (skipn 3 ((delim ++ r) ++ tail_lines ls))
        with (r ++ tail_lines ls).
      rewrite find_from_skip_line by assumption.
      rewrite <- (app_nil_r (tail_lines ls)) at 1.
      rewrite find_from_plain_lines; [| assumption | now left].
      reflexivity.
    + unfold strip_frontmatter. now rewrite E.
Qed.

Lemma strip_frontmatter_identity_witness :
  strip_frontmatter (str "# T") = str "# T"
  /\ strip_frontmatter (join nl [delim; str "a: b"; str "-- c"])
     = join nl [delim; str "a: b"; str "-- c"].
Proof.
  destruct strip_frontmatter_identity as [H1 H2]. split.
  - apply H1. reflexivity.
  - apply H2.
    + vm_compute. intuition discriminate.
    + repeat constructor; vm_compute; intuition discriminate.
Defined.

(** C6 fails as stated, in both halves.  The first line is the
    delimiter and no later line is the delimiter alone, yet the text is
    cut; and a text whose first line is four hyphens, not the
    delimiter, is cut as well. *)
Lemma strip_frontmatter_cuts_without_closing_line :
  let ls := [str "a"; str "---x"] in
  let doc := join nl [str "----"; str "foo"; delim; str "bar"] in
  (Forall (fun l => ~ In LF l /\ l <> delim) ls
   /\ strip_frontmatter (join nl (delim :: ls)) = str "x"
   /\ strip_frontmatter (join nl (delim :: ls)) <> join nl (delim :: ls))
  /\ (str "----" <> delim
      /\ strip_frontmatter doc = str "bar"
      /\ strip_frontmatter doc <> doc).
Proof.
  cbv zeta. split; split; [| split | | split].
  - repeat constructor; vm_compute; try discriminate; intuition discriminate.
  - vm_compute. reflexivity.
  - vm_compute. discriminate.
  - vm_compute. discriminate.
  - vm_compute. reflexivity.
  - vm_compute. discriminate.
Qed.

(* ================================================================== *)
(** ** The regular-expression engine *)
(* ================================================================== *)

Lemma extends_refl c : extends c c.
Proof. exists []. split; reflexivity. Qed.

Lemma extends_trans c1 c2 c3 : extends c1 c2 -> extends c2 c3 -> extends c1 c3.
Proof.
  intros [m1 [A1 B1]] [m2 [A2 B2]]. exists (m1 ++ m2). split.
  - rewrite A1, A2. now rewrite app_assoc.
  - rewrite B2, B1, rev_app_distr. now rewrite app_assoc.
Qed.

Lemma extends_text c c' : extends c c' -> text_of c' = text_of c.
Proof.
  intros [mid [A B]]. unfold text_of. rewrite A, B, rev_app_distr, rev_involutive.
  now rewrite <- app_assoc.
Qed.

Lemma extends_pos c c' :
  extends c c' ->
  (pos c <= pos c')%nat
  /\ (length (after c) + pos c = length (after c') + pos c')%nat.
Proof.
  intros [mid [A B]]. unfold pos. rewrite A, B, !length_app, length_rev. lia.
Qed.

Lemma skipn_pos c : skipn (pos c) (text_of c) = after c.
Proof.
  unfold pos, text_of. rewrite skipn_app, length_rev, Nat.sub_diag.
  rewrite skipn_all2 by (rewrite length_rev; lia). reflexivity.
Qed.

(** A greedy repeat that succeeds has consumed a run [mid] of the class,
    of a length within its bounds, and the continuation succeeded behind
    it. *)
Lemma rep_inv cls aft :
  forall lo hi k bef r,
  rep cls lo hi k bef aft = Some r ->
  exists mid rest,
    aft = mid ++ rest
    /\ Forall (fun x => cls x = true) mid
    /\ (lo <= length mid)%nat
    /\ (forall n, hi = Some n -> (length mid <= n)%nat)
    /\ k {| before := rev mid ++ bef; after := rest |} = Some r.
Proof.
  induction aft as [|x aft IH]; intros lo hi k bef r H.
  - simpl in H. destruct lo; [|discriminate].
    exists [], []. repeat split; auto; intros; simpl; lia.
  - assert (Hstop : (match lo with
                     | O => k {| before := bef; after := x :: aft |}
                     | S _ => None
                     end) = Some r ->
                    exists mid rest,
                      x :: aft = mid ++ rest
                      /\ Forall (fun x => cls x = true) mid
                      /\ (lo <= length mid)%nat
                      /\ (forall n, hi = Some n -> (length mid <= n)%nat)
                      /\ k {| before := rev mid ++ bef; after := rest |}
                         = Some r).
    { intros Hs. destruct lo; [|discriminate].
      exists [], (x :: aft). repeat split; auto; intros; simpl; lia. }
    simpl in H. destruct (cls x && can_take hi) eqn:E; [|now apply Hstop].
    destruct (rep cls (Nat.pred lo) (taken hi) k (x :: bef) aft) as [r'|] eqn:R;
      [|now apply Hstop].
    injection H as <-. apply andb_true_iff in E. destruct E as [Ex Eh].
    destruct (IH _ _ _ _ _ R) as (mid & rest & A & F & L & U & K).
    exists (x :: mid), rest. split; [now rewrite A|].
    split; [now constructor|]. split; [simpl; lia|]. split.
    + intros n ->. destruct n as [|n]; [discriminate|].
      specialize (U n eq_refl). simpl. lia.
    + simpl. rewrite <- app_assoc. exact K.
Qed.

Lemma run_extends r :
  forall k c caps res,
  run r k c caps = Some res ->
  exists c' caps', extends c c' /\ k c' caps' = Some res.
Proof.
  induction r as [| | cls lo hi | r IH | r1 IH1 r2 IH2];
    intros k c caps res H; simpl in H.
  - destruct (at_bol c); [|discriminate].
    exists c, caps. split; [apply extends_refl | assumption].
  - destruct (at_eol c); [|discriminate].
    exists c, caps. split; [apply extends_refl | assumption].
  - apply rep_inv in H. destruct H as (mid & rest & A & _ & _ & _ & K).
    eexists _, caps. split; [|exact K]. exists mid. now split.
  - apply IH in H. destruct H as (c' & caps' & E & K).
    eexists _, _. split; [exact E | exact K].
  - apply IH1 in H. destruct H as (c1 & caps1 & E1 & K1).
    apply IH2 in K1. destruct K1 as (c2 & caps2 & E2 & K2).
    exists c2, caps2. split; [eapply extends_trans; eassumption | assumption].
Qed.

Lemma match_here_inv r c m c' :
  match_here r c = Some (m, c') ->
  extends c c' /\ m_start m = pos c /\ m_end m = pos c'.
Proof.
  unfold match_here. intros H.
  destruct (run r _ c []) as [[c1 caps]|] eqn:R; [|discriminate].
  injection H as <- <-. apply run_extends in R.
  destruct R as (c2 & caps2 & E & K). injection K as -> ->.
  repeat split. exact E.
Qed.

Lemma search_inv r aft :
  forall bef m c',
  search r bef aft = Some (m, c') ->
  exists c1, extends {| before := bef; after := aft |} c1
             /\ match_here r c1 = Some (m, c').
Proof.
  induction aft as [|x aft IH]; intros bef m c' H; simpl in H.
  - destruct (match_here r {| before := bef; after := [] |}) eqn:M;
      [|discriminate].
    injection H as ->. eexists. split; [apply extends_refl | exact M].
  - destruct (match_here r {| before := bef; after := x :: aft |}) eqn:M.
    + injection H as ->. eexists. split; [apply extends_refl | exact M].
    + apply IH in H. destruct H as (c1 & E & M1). exists c1.
      split; [|exact M1]. eapply extends_trans; [|exact E].
      exists [x]. split; reflexivity.
Qed.

(* ================================================================== *)
(** ** The section parser *)
(* ================================================================== *)

(** What a match of [heading_pattern] is made of: at the start of a
    line, one to six [#], then a run [ws] of whitespace (line feeds
    included), then a run [tx] of characters other than the line feed
    that reaches the end of a line. *)
Lemma heading_match_inv c m c' :
  match_here heading_pattern c = Some (m, c') ->
  at_bol c = true /\ at_eol c' = true
  /\ exists hs ws tx,
       after c = hs ++ ws ++ tx ++ after c'
       /\ before c' = rev (hs ++ ws ++ tx) ++ before c
       /\ Forall (fun x => is_hash x = true) hs
       /\ (1 <= length hs <= 6)%nat
       /\ Forall (fun x => isspace x = true) ws /\ (1 <= length ws)%nat
       /\ Forall (fun x => not_newline x = true) tx /\ (1 <= length tx)%nat
       /\ m = {| m_start := pos c; m_end := pos c';
                 m_spans := [ (pos c, pos c + length hs)%nat;
                              (pos c + length hs + length ws, pos c')%nat ] |}.
Proof.
  unfold match_here. intros H.
  destruct (run heading_pattern _ c []) as [[c1 caps]|] eqn:R; [|discriminate].
  injection H as <- <-. simpl in R.
  destruct (at_bol c); [|discriminate].
  apply rep_inv in R. destruct R as (hs & r1 & A1 & F1 & L1 & U1 & R).
  apply rep_inv in R. destruct R as (ws & r2 & A2 & F2 & L2 & _ & R).
  apply rep_inv in R. destruct R as (tx & r3 & A3 & F3 & L3 & _ & R).
  destruct (at_eol _) eqn:Eol in R; [|discriminate].
  injection R as <- <-. simpl in *.
  split; [reflexivity|]. split; [exact Eol|].
  exists hs, ws, tx. specialize (U1 _ eq_refl).
  repeat split; auto.
  - now rewrite A1, A2, A3.
  - now rewrite !rev_app_distr, <- !app_assoc.
  - f_equal. unfold pos. simpl.
    rewrite !length_app, !length_rev.
    f_equal; [f_equal; lia | f_equal; f_equal; lia].
Qed.

Lemma heading_match_advances c m c' :
  match_here heading_pattern c = Some (m, c') ->
  extends c c' /\ (pos c < pos c')%nat.
Proof.
  intros H. destruct (match_here_inv _ _ _ _ H) as (E & _ & _).
  split; [exact E|].
  destruct (heading_match_inv _ _ _ H)
    as (_ & _ & hs & ws & tx & _ & B & _ & [L _] & _).
  unfold pos. rewrite B, !length_app, length_rev, !length_app. lia.
Qed.

Lemma search_heading_inv c m c' :
  search heading_pattern (before c) (after c) = Some (m, c') ->
  extends c c' /\ (pos c <= m_start m)%nat /\ (m_start m < m_end m)%nat
  /\ m_end m = pos c'.
Proof.
  intros H. apply search_inv in H. destruct H as (c1 & E1 & M).
  assert (E0 : {| before := before c; after := after c |} = c)
    by (destruct c; reflexivity).
  rewrite E0 in E1.
  destruct (heading_match_advances _ _ _ M) as [E2 Hlt].
  destruct (match_here_inv _ _ _ _ M) as (_ & Hs & He).
  destruct (extends_pos _ _ E1) as [Hle _].
  repeat split; [eapply extends_trans; eassumption | lia | lia | exact He].
Qed.

Lemma firstn_app_exact (A : Type) (l r : list A) n :
  n = length l -> firstn n (l ++ r) = l.
Proof.
  intros ->. rewrite firstn_app, firstn_all, Nat.sub_diag. simpl.
  apply app_nil_r.
Qed.

Lemma skipn_app_exact (A : Type) (l r : list A) n :
  n = length l -> skipn n (l ++ r) = r.
Proof.
  intros ->. rewrite skipn_app, skipn_all, Nat.sub_diag. reflexivity.
Qed.

Lemma nth_error_before c :
  at_bol c = true ->
  pos c = 0%nat \/ nth_error (text_of c) (pos c - 1) = Some LF.
Proof.
  unfold at_bol, pos, text_of. destruct (before c) as [|x bef]; [now left|].
  intros H. apply N.eqb_eq in H. subst x. right. simpl.
  rewrite Nat.sub_0_r, <- app_assoc.
  rewrite nth_error_app2 by (rewrite length_rev; lia).
  now rewrite length_rev, Nat.sub_diag.
Qed.

Lemma nth_error_after c :
  at_eol c = true ->
  pos c = length (text_of c) \/ nth_error (text_of c) (pos c) = Some LF.
Proof.
  unfold at_eol, pos, text_of. destruct (after c) as [|x aft].
  - left. now rewrite app_nil_r, length_rev.
  - intros H. apply N.eqb_eq in H. subst x. right.
    rewrite nth_error_app2 by (rewrite length_rev; lia).
    now rewrite length_rev, Nat.sub_diag.
Qed.

Lemma heading_match_shape c m c' :
  match_here heading_pattern c = Some (m, c') ->
  heading_shape (text_of c) m.
Proof.
  intros H. destruct (match_here_inv _ _ _ _ H) as (E & _ & _).
  destruct (heading_match_inv _ _ _ H)
    as (Hbol & Heol & hs & ws & tx & A & B & Fh & Lh & Fw & Lw & Ft & Lt & ->).
  assert (Hpos : pos c' = (pos c + length hs + length ws + length tx)%nat).
  { unfold pos. rewrite B, !length_app, length_rev, !length_app. lia. }
  assert (Hskip : forall n pre suf,
             after c = pre ++ suf -> n = (pos c + length pre)%nat ->
             skipn n (text_of c) = suf).
  { intros n pre suf Hps ->. rewrite Nat.add_comm, <- skipn_skipn.
    rewrite skipn_pos, Hps. now apply skipn_app_exact. }
  exists hs, ws, tx. unfold heading_shape, group, slice. simpl.
  split; [|split; [|split; [|split; [|split; [|split; [|split; [|split;
    [|split; [|split]]]]]]]]]; auto.
  - rewrite skipn_pos, A, !app_assoc. apply firstn_app_exact.
    rewrite Hpos, !length_app. lia.
  - rewrite skipn_pos, A. apply firstn_app_exact. lia.
  - rewrite (Hskip _ (hs ++ ws) (tx ++ after c'));
      [| now rewrite A, <- app_assoc | rewrite length_app; lia].
    apply firstn_app_exact. lia.
  - eapply Forall_impl; [|exact Fh]. simpl. intros x Hx.
    now apply N.eqb_eq in Hx.
  - eapply Forall_impl; [|exact Ft]. simpl. intros x Hx.
    apply negb_true_iff, N.eqb_neq in Hx. exact Hx.
  - now apply nth_error_before.
  - rewrite <- (extends_text _ _ E). now apply nth_error_after.
Qed.

(** Every match [finditer] yields has the shape of a heading. *)
Lemma finditer_loop_shape fuel :
  forall c,
  Forall (heading_shape (text_of c)) (finditer_loop fuel heading_pattern c).
Proof.
  induction fuel as [|fuel IH]; intros c; simpl; [constructor|].
  destruct (search heading_pattern (before c) (after c)) as [[m c']|] eqn:S;
    [|constructor].
  assert (S' := S). apply search_heading_inv in S'. destruct S' as (E & _).
  apply search_inv in S. destruct S as (c1 & E1 & M).
  assert (E0 : {| before := before c; after := after c |} = c)
    by (destruct c; reflexivity).
  rewrite E0 in E1. constructor.
  - rewrite <- (extends_text _ _ E1). eapply heading_match_shape. exact M.
  - rewrite <- (extends_text _ _ E). apply IH.
Qed.

Lemma finditer_shape content :
  Forall (heading_shape content) (finditer heading_pattern content).
Proof.
  exact (finditer_loop_shape (S (length content))
           {| before := []; after := content |}).
Qed.

(** The bound on the number of matches in [finditer] is never reached:
    any larger bound gives the same matches. *)
Lemma finditer_loop_enough fuel1 :
  forall fuel2 c,
  (length (after c) < fuel1)%nat -> (length (after c) < fuel2)%nat ->
  finditer_loop fuel1 heading_pattern c = finditer_loop fuel2 heading_pattern c.
Proof.
  induction fuel1 as [|fuel1 IH]; intros fuel2 c H1 H2; [lia|].
  destruct fuel2 as [|fuel2]; [lia|]. simpl.
  destruct (search heading_pattern (before c) (after c)) as [[m c']|] eqn:S;
    [|reflexivity].
  apply search_heading_inv in S. destruct S as (E & Hs & Hlt & He).
  destruct (extends_pos _ _ E) as [_ Hlen].
  f_equal. apply IH; lia.
Qed.

Lemma finditer_enough content fuel :
  (length content < fuel)%nat ->
  finditer_loop fuel heading_pattern {| before := []; after := content |}
  = finditer heading_pattern content.
Proof.
  intros H. unfold finditer. apply finditer_loop_enough; simpl; lia.
Qed.

Lemma finditer_loop_in_order fuel :
  forall c,
  in_order (pos c) (finditer_loop fuel heading_pattern c)
           (length (text_of c)).
Proof.
  assert (Hbase : forall c, (pos c <= length (text_of c))%nat).
  { intros c. unfold pos, text_of. rewrite length_app, length_rev. lia. }
  induction fuel as [|fuel IH]; intros c; simpl; [apply Hbase|].
  destruct (search heading_pattern (before c) (after c)) as [[m c']|] eqn:S;
    [|apply Hbase].
  apply search_heading_inv in S. destruct S as (E & Hs & Hlt & He).
  simpl. repeat split; [assumption..|].
  rewrite He, <- (extends_text _ _ E). apply IH.
Qed.

Lemma slice_skipn (l : pystr) a b :
  (a <= b)%nat -> slice l a b ++ skipn b l = skipn a l.
Proof.
  intros H. unfold slice.
  replace (skipn b l) with (skipn (b - a) (skipn a l)).
  - apply firstn_skipn.
  - rewrite skipn_skipn. f_equal. lia.
Qed.

(** The segments cut at matches that lie in order make up the text
    again. *)
Lemma segments_tile content ms :
  forall last,
  in_order last ms (length content) ->
  concat (List.map (segment_text content) (segments content last ms))
  = skipn last content.
Proof.
  induction ms as [|m ms IH]; intros last H; simpl in *.
  - apply app_nil_r.
  - destruct H as (H1 & H2 & H3). rewrite (IH _ H3).
    rewrite slice_skipn by lia. apply slice_skipn. exact H1.
Qed.

Lemma truthy_rev s : truthy (rev s) = truthy s.
Proof.
  destruct s as [|c s]; [reflexivity|]. simpl.
  destruct (rev s); reflexivity.
Qed.

Lemma truthy_lstrip s : truthy (lstrip s) = has_nonspace s.
Proof.
  induction s as [|c s IH]; [reflexivity|].
  change (lstrip (c :: s)) with (if isspace c then lstrip s else c :: s).
  change (has_nonspace (c :: s)) with (negb (isspace c) || has_nonspace s).
  destruct (isspace c); simpl; [exact IH | reflexivity].
Qed.

Lemma has_nonspace_rev s : has_nonspace (rev s) = has_nonspace s.
Proof.
  unfold has_nonspace.
  destruct (existsb _ s) eqn:E.
  - apply existsb_exists in E. destruct E as [x [Hx Px]].
    apply existsb_exists. exists x. split; [now apply in_rev in Hx | exact Px].
  - destruct (existsb _ (rev s)) eqn:E'; [|reflexivity].
    apply existsb_exists in E'. destruct E' as [x [Hx Px]].
    rewrite <- E. symmetry. apply existsb_exists. exists x.
    split; [now apply in_rev | exact Px].
Qed.

Lemma has_nonspace_lstrip s : has_nonspace (lstrip s) = has_nonspace s.
Proof.
  induction s as [|c s IH]; [reflexivity|].
  change (lstrip (c :: s)) with (if isspace c then lstrip s else c :: s).
  change (has_nonspace (c :: s)) with (negb (isspace c) || has_nonspace s).
  destruct (isspace c) eqn:E.
  - simpl. exact IH.
  - change (has_nonspace (c :: s)) with (negb (isspace c) || has_nonspace s).
    now rewrite E.
Qed.

(** [if t.strip():] tests for a character that is not whitespace. *)
Lemma truthy_strip t : truthy (strip t) = has_nonspace t.
Proof.
  unfold strip, rstrip.
  now rewrite truthy_rev, truthy_lstrip, has_nonspace_rev, has_nonspace_lstrip.
Qed.

Lemma parse_loop_segments content ms :
  forall acc last,
  (let '(nodes, last') := fold_left (parse_step content) ms (acc, last) in
   if truthy (strip (skipn last' content))
   then nodes ++ [Content (skipn last' content)] else nodes)
  = acc ++ flat_map (segment_nodes content) (segments content last ms).
Proof.
  induction ms as [|m ms IH]; intros acc last.
  - simpl. rewrite truthy_strip.
    destruct (has_nonspace (skipn last content)); simpl;
      now rewrite ?app_nil_r.
  - simpl fold_left. rewrite IH. simpl.
    rewrite truthy_strip.
    destruct (has_nonspace (slice content last (m_start m))); simpl;
      now rewrite <- !app_assoc.
Qed.

(** The scenario document of the specification, and a line of seven
    markers. *)
Example parse_sections_scenario :
  parse_sections
    (join nl [str "# Title"; str ""; str "## A"; str "text1"; str "";
              str "## B"; str "text2"; str ""])
  = [ Heading 1 (str "Title");
      Heading 2 (str "A");
      Content (nl ++ str "text1" ++ nl ++ nl);
      Heading 2 (str "B");
      Content (nl ++ str "text2" ++ nl) ].
Proof. vm_compute. reflexivity. Qed.

Example parse_sections_seven_markers :
  parse_sections (str "####### x") = [Content (str "####### x")].
Proof. vm_compute. reflexivity. Qed.

(** C5: cut at its heading matches, the document is the spans and the
    matches in their order, nothing lost and nothing added; the nodes
    are those of the segments, in the same order: every span with a
    character that is not whitespace gives exactly one content node
    holding the span as it is, a span of whitespace gives no node. *)
Theorem parse_sections_spans content :
  let ms := finditer heading_pattern content in
  let segs := segments content 0 ms in
  in_order 0 ms (length content)
  /\ concat (List.map (segment_text content) segs) = content
  /\ parse_sections content = flat_map (segment_nodes content) segs.
Proof.
  intros ms segs.
  assert (Ho : in_order 0 ms (length content)).
  { exact (finditer_loop_in_order (S (length content))
             {| before := []; after := content |}). }
  split; [exact Ho|]. split.
  - unfold segs. now rewrite segments_tile.
  - unfold parse_sections.
    exact (parse_loop_segments content ms [] 0%nat).
Qed.

(** C4, where the code departs from it: a line made of the marker alone
    is matched together with the line that follows it, and that line
    becomes the text of the heading. *)
Theorem parse_sections_heading_over_two_lines :
  parse_sections (join nl [str "#"; str "foo"]) = [Heading 1 (str "foo")]
  /\ parse_sections (join nl [str "#"; str "## B"])
     = [Heading 1 (str "## B")].
Proof. split; vm_compute; reflexivity. Qed.

(* ================================================================== *)
(** ** More on the frontmatter stripper *)
(* ================================================================== *)

Lemma find_from_range sub s :
  forall i,
  find_from sub s i = -1
  \/ exists k, find_from sub s i = Z.of_nat (i + k)
               /\ (k + length sub <= length s)%nat.
Proof.
  induction s as [|c s IH]; intros i.
  - destruct sub as [|x sub]; [|now left].
    right. exists 0%nat. simpl. split; [f_equal; lia | lia].
  - rewrite find_from_cons. destruct (startswith (c :: s) sub) eqn:E.
    + right. exists 0%nat. split; [f_equal; lia|].
      apply startswith_split in E. destruct E as [r E].
      rewrite E, length_app. lia.
    + destruct (IH (S i)) as [H | [k [H L]]]; [now left|].
      right. exists (S k). split; [rewrite H; f_equal; lia | simpl; lia].
Qed.

Lemma lstrip_chars_suffix chars s :
  exists k, s = k ++ lstrip_chars chars s
            /\ Forall (fun c => existsb (char_eqb c) chars = true) k.
Proof.
  induction s as [|c s [k [E F]]]; [exists []; split; [reflexivity|constructor]|].
  simpl. destruct (existsb (char_eqb c) chars) eqn:X.
  - exists (c :: k). split; [simpl; now f_equal | now constructor].
  - exists []. split; [reflexivity | constructor].
Qed.

Lemma lstrip_nl_head s : startswith (lstrip_chars nl s) nl = false.
Proof.
  induction s as [|c s IH]; [reflexivity|].
  change (lstrip_chars nl (c :: s))
    with (if char_eqb c LF || false then lstrip_chars nl s else c :: s).
  unfold char_eqb. destruct (N.eqb_spec c LF) as [->|Hne]; simpl orb; cbv iota.
  - exact IH.
  - change (startswith (c :: s) nl) with (char_eqb LF c && true).
    unfold char_eqb. rewrite andb_true_r. apply N.eqb_neq. congruence.
Qed.

(** X1: [strip_frontmatter] only ever removes a prefix of the document:
    what it returns is the document's own tail, nothing is added or
    reordered.  When it removes anything, the document started with the
    three delimiter characters, at least seven characters are gone (the
    opening characters and a line feed with three more), and the result
    does not begin with a line feed. *)
Theorem strip_frontmatter_keeps_a_suffix content :
  exists removed,
    content = removed ++ strip_frontmatter content
    /\ (removed = []
        \/ (startswith content delim = true
            /\ (7 <= length removed)%nat
            /\ startswith (strip_frontmatter content) nl = false)).
Proof.
  unfold strip_frontmatter.
  destruct (startswith content delim) eqn:S; simpl negb; cbv iota;
    [|exists []; split; [reflexivity | now left]].
  unfold find.
  destruct (length content <? 3)%nat eqn:L;
    [exists []; split; [reflexivity | now left]|].
  apply Nat.ltb_ge in L.
  destruct (find_from_range (nl ++ delim) (skipn 3 content) 3)
    as [-> | [k [-> B]]];
    [exists []; split; [reflexivity | now left]|].
  replace (Z.of_nat (3 + k) =? -1) with false
    by (symmetry; apply Z.eqb_neq; lia).
  unfold slice_from.
  replace (Z.of_nat (3 + k) + 4 <? 0) with false
    by (symmetry; apply Z.ltb_ge; lia).
  replace (Z.to_nat (Z.of_nat (3 + k) + 4)) with (7 + k)%nat by lia.
  rewrite length_skipn in B. change (length (nl ++ delim)) with 4%nat in B.
  destruct (lstrip_chars_suffix nl (skipn (7 + k) content)) as [gone [E _]].
  exists (firstn (7 + k) content ++ gone). split.
  - rewrite <- app_assoc, <- E. symmetry. apply firstn_skipn.
  - right. split; [reflexivity|]. split; [|apply lstrip_nl_head].
    rewrite length_app, length_firstn. lia.
Qed.

(** X2: what is cut in general.  When the first line starts with the
    three delimiter characters and [fm] are following lines that do not,
    the text returned starts right behind the three characters that
    open the next line, whatever else that line holds, with leading
    line feeds dropped; the lines [fm] and the rest of the first line
    leave no trace. *)
Theorem strip_frontmatter_cut y fm x rest :
  ~ In LF y -> Forall plain_line fm ->
  strip_frontmatter (join nl ((delim ++ y) :: fm ++ (delim ++ x) :: rest))
  = lstrip_chars nl (join nl (x :: rest)).
Proof.
  intros Hy Hfm. rewrite !join_lines, tail_lines_app.
  change (tail_lines ((delim ++ x) :: rest))
    with ((nl ++ delim) ++ x ++ tail_lines rest).
  set (after_ := x ++ tail_lines rest).
  set (n := (length y + length (tail_lines fm))%nat).
  unfold strip_frontmatter.
  rewrite <- app_assoc, startswith_app. simpl negb. cbv iota.
  unfold find.
  replace (length (delim ++ y ++ tail_lines fm ++ (nl ++ delim) ++ after_)
           <? 3)%nat with false
    by (symmetry; apply Nat.ltb_ge; rewrite length_app; simpl; lia).
  change (skipn 3 (delim ++ y ++ tail_lines fm ++ (nl ++ delim) ++ after_))
    with (y ++ tail_lines fm ++ (nl ++ delim) ++ after_).
  rewrite find_from_skip_line by assumption.
  rewrite find_from_plain_lines;
    [| assumption | right; eexists; reflexivity].
  rewrite find_from_hit.
  replace (Z.of_nat (3 + length y + length (tail_lines fm)) =? -1) with false
    by (symmetry; apply Z.eqb_neq; lia).
  unfold slice_from.
  replace (Z.of_nat (3 + length y + length (tail_lines fm)) + 4 <? 0)
    with false by (symmetry; apply Z.ltb_ge; lia).
  f_equal.
  replace (delim ++ y ++ tail_lines fm ++ (nl ++ delim) ++ after_)
    with ((delim ++ y ++ tail_lines fm ++ nl ++ delim) ++ after_)
    by (now rewrite <- !app_assoc).
  apply skipn_app_exact. rewrite !length_app. simpl. lia.
Qed.

Lemma strip_frontmatter_cut_witness :
  (~ In LF (str " yaml") /\ Forall plain_line [str "title: x"])
  /\ strip_frontmatter
       (join nl [str "--- yaml"; str "title: x"; str "--- end"; str "";
                 str "# T"])
     = join nl [str " end"; str ""; str "# T"].
Proof.
  assert (Hy : ~ In LF (str " yaml")) by (vm_compute; intuition discriminate).
  assert (H : Forall plain_line [str "title: x"]).
  { constructor; [|constructor]. split; [|reflexivity].
    vm_compute. intuition discriminate. }
  split; [split; [exact Hy | exact H]|].
  exact (strip_frontmatter_cut (str " yaml") [str "title: x"] (str " end")
           [str ""; str "# T"] Hy H).
Defined.

(* ================================================================== *)
(** ** More on the section parser *)
(* ================================================================== *)

Lemma In_lstrip x s : In x (lstrip s) -> In x s.
Proof.
  induction s as [|c s IH]; simpl; [tauto|].
  destruct (isspace c); [right; now apply IH | tauto].
Qed.

Lemma In_strip x s : In x (strip s) -> In x s.
Proof.
  unfold strip, rstrip. intros H.
  apply in_rev, In_lstrip, in_rev, In_lstrip in H. exact H.
Qed.

Lemma lstrip_idem s : lstrip (lstrip s) = lstrip s.
Proof.
  induction s as [|c s IH]; [reflexivity|].
  simpl. destruct (isspace c) eqn:E; [exact IH|].
  simpl. now rewrite E.
Qed.

Lemma lstrip_snoc a c :
  isspace c = false -> lstrip (a ++ [c]) = lstrip a ++ [c].
Proof.
  intros Hc. induction a as [|x a IH]; simpl.
  - now rewrite Hc.
  - destruct (isspace x); [exact IH | reflexivity].
Qed.

Lemma lstrip_head s :
  lstrip s = [] \/ exists c r, lstrip s = c :: r /\ isspace c = false.
Proof.
  induction s as [|c s IH]; [now left|].
  simpl. destruct (isspace c) eqn:E; [exact IH|].
  right. now exists c, s.
Qed.

Lemma rstrip_idem t : rstrip (rstrip t) = rstrip t.
Proof. unfold rstrip. now rewrite rev_involutive, lstrip_idem. Qed.

Lemma lstrip_rstrip_lstrip s : lstrip (strip s) = strip s.
Proof.
  unfold strip. destruct (lstrip_head s) as [-> | (c & r & -> & Hc)];
    [reflexivity|].
  unfold rstrip. simpl rev. rewrite lstrip_snoc by assumption.
  rewrite rev_app_distr. simpl. now rewrite Hc.
Qed.

Lemma rstrip_strip s : rstrip (strip s) = strip s.
Proof. unfold strip. apply rstrip_idem. Qed.

Lemma segments_matched content ms :
  forall last m, In (Matched m) (segments content last ms) -> In m ms.
Proof.
  induction ms as [|m0 ms IH]; intros last m H; simpl in H.
  - destruct H as [H | []]. discriminate.
  - destruct H as [H | [H | H]]; [discriminate | | ].
    + left. now injection H.
    + right. eapply IH. exact H.
Qed.

Lemma heading_shape_node_ok content m :
  heading_shape content m ->
  node_ok (Heading (Z.of_nat (length (group content m 1)))
                   (strip (group content m 2))).
Proof.
  intros (hs & ws & tx & _ & -> & -> & _ & Lh & _ & _ & Ft & _).
  simpl. split; [lia|]. split; [|split].
  - intros H. apply In_strip in H. rewrite Forall_forall in Ft.
    now apply (Ft _ H).
  - apply lstrip_rstrip_lstrip.
  - apply rstrip_strip.
Qed.

Lemma parse_sections_segments content :
  parse_sections content
  = flat_map (segment_nodes content)
             (segments content 0 (finditer heading_pattern content)).
Proof.
  unfold parse_sections.
  exact (parse_loop_segments content (finditer heading_pattern content)
           [] 0%nat).
Qed.

(** X3: every node that [parse_sections] returns is well formed: a
    heading has a level from 1 to 6 and a text without line feed and
    without whitespace at either end (it may be empty); a content node
    holds at least one character that is not whitespace. *)
Theorem parse_sections_nodes_ok content :
  Forall node_ok (parse_sections content).
Proof.
  rewrite parse_sections_segments. apply Forall_flat_map.
  apply Forall_forall. intros [t | m] Hs.
  - simpl. destruct (has_nonspace t) eqn:E; repeat constructor. exact E.
  - simpl. constructor; [|constructor].
    apply heading_shape_node_ok.
    apply segments_matched in Hs.
    pose proof (finditer_shape content) as Hf.
    rewrite Forall_forall in Hf. now apply Hf.
Qed.

Lemma segments_no_adjacent_content content ms :
  forall last,
  no_adjacent_content
    (flat_map (segment_nodes content) (segments content last ms)).
Proof.
  induction ms as [|m ms IH]; intros last; simpl.
  - destruct (has_nonspace (skipn last content)); simpl; exact I.
  - destruct (has_nonspace (slice content last (m_start m))); simpl;
      apply IH.
Qed.

(** X4: in the list that [parse_sections] returns no content node
    directly follows another content node: between two of them there is
    always a heading. *)
Theorem parse_sections_no_adjacent_content content :
  no_adjacent_content (parse_sections content).
Proof.
  rewrite parse_sections_segments. apply segments_no_adjacent_content.
Qed.

Lemma search_without_marker aft :
  ~ In 35%N aft -> forall bef, search heading_pattern bef aft = None.
Proof.
  intros Hno bef.
  destruct (search heading_pattern bef aft) as [[m c']|] eqn:S;
    [|reflexivity].
  exfalso. apply search_inv in S. destruct S as (c1 & [mid [A _]] & M).
  destruct (heading_match_inv _ _ _ M)
    as (_ & _ & hs & ws & tx & A1 & _ & Fh & [Lh _] & _).
  simpl in A. apply Hno. rewrite A, A1.
  destruct hs as [|h hs]; [simpl in Lh; lia|].
  inversion Fh as [|? ? Hh _]; subst. apply N.eqb_eq in Hh. subst h.
  apply in_or_app. right. now left.
Qed.

(** X5: a document with no [#] in it has no heading: it is one content
    node holding the whole document, or no node at all when it holds
    nothing but whitespace (the empty document included). *)
Theorem parse_sections_without_marker content :
  ~ In 35%N content ->
  parse_sections content
  = if has_nonspace content then [Content content] else [].
Proof.
  intros Hno. unfold parse_sections, finditer. simpl finditer_loop.
  rewrite search_without_marker by assumption.
  simpl. now rewrite truthy_strip.
Qed.

Lemma parse_sections_without_marker_witness :
  ~ In 35%N (str "just text")
  /\ parse_sections (str "just text") = [Content (str "just text")].
Proof.
  assert (H : ~ In 35%N (str "just text"))
    by (vm_compute; intuition discriminate).
  split; [exact H|].
  exact (parse_sections_without_marker (str "just text") H).
Defined.

(* ================================================================== *)
(** ** More on the nesting builder *)
(* ================================================================== *)

Section MoreBuilderFacts.

Variable md_convert : pystr -> pystr.

(** X6: [add_content] never touches the nesting: the stack and the
    configuration are as before, and the lines it appends are content
    lines only, one for each line of the rendered text, none at all for
    a text of whitespace; each of them is empty or made of the
    indentation of the depth plus one and a line with a character that
    is not whitespace. *)
Theorem add_content_effect txt b :
  let b' := add_content md_convert txt b in
  stack b' = stack b
  /\ collapsible_levels b' = collapsible_levels b
  /\ open_by_default b' = open_by_default b
  /\ exists ls,
       lines b' = lines b ++ ls
       /\ length ls = (if has_nonspace txt
                       then length (splitlines (md_convert txt)) else 0%nat)
       /\ Forall (fun l =>
                    kind l = KContent
                    /\ (text l = []
                        \/ exists line,
                             text l = repeat_str (str "  ")
                                        (length (stack b) + 1) ++ line
                             /\ has_nonspace line = true)) ls.
Proof.
  cbv zeta. unfold add_content, md_to_html. rewrite truthy_strip.
  destruct (has_nonspace txt); simpl negb; cbv iota.
  - destruct (truthy (md_convert txt)) eqn:T; simpl negb; cbv iota.
    + rewrite emit_lines_spec. simpl. repeat split.
      eexists. split; [reflexivity|]. split; [apply length_map|].
      apply Forall_forall. intros l Hl. apply in_map_iff in Hl.
      destruct Hl as [line [<- _]]. unfold content_line. simpl.
      split; [reflexivity|]. rewrite truthy_strip.
      destruct (has_nonspace line) eqn:E; [right | now left].
      exists line. split; [reflexivity | exact E].
    + repeat split. exists []. split; [now rewrite app_nil_r|].
      split; [|constructor].
      destruct (md_convert txt); [reflexivity | discriminate].
  - repeat split. exists []. split; [now rewrite app_nil_r|].
    split; [reflexivity | constructor].
Qed.

(** X7: after any sequence of calls the nesting depth is at most the
    number of distinct collapsible levels. *)
Theorem depth_bounded collapsible open_ ops :
  (length (stack (run_ops md_convert (init collapsible open_) ops))
   <= length (nodup Z.eq_dec collapsible))%nat.
Proof.
  destruct (Inv_run_ops md_convert collapsible open_ ops _
              (Inv_init collapsible open_)) as [_ _ Hd Hm _].
  apply NoDup_incl_length; [now apply Decreasing_NoDup|].
  intros x Hx. apply nodup_In. rewrite Forall_forall in Hm. now apply Hm.
Qed.

Lemma close_until_loop_appends level stk :
  forall b, exists n,
    close_until_loop level stk b
    = with_state b (lines b ++ repeat close_line n)
                 (match n with O => stack b | S _ => skipn n stk end).
Proof.
  induction stk as [|top stk IH]; intros b.
  - exists 0%nat. simpl. rewrite app_nil_r. symmetry. apply with_state_id.
  - simpl. destruct (top >=? level).
    + destruct (IH (with_stack (emit b close_line) stk)) as [n ->].
      exists (S n). unfold with_state. simpl. rewrite <- app_assoc.
      destruct n; reflexivity.
    + exists 0%nat. simpl. rewrite app_nil_r. symmetry. apply with_state_id.
Qed.

Lemma add_heading_appends level txt b :
  exists ls, lines (add_heading level txt b) = lines b ++ ls
             /\ collapsible_levels (add_heading level txt b)
                = collapsible_levels b
             /\ open_by_default (add_heading level txt b)
                = open_by_default b.
Proof.
  unfold add_heading, _close_until.
  destruct (close_until_loop_appends level (stack b) b) as [n ->].
  simpl. destruct (py_in level (collapsible_levels b)); simpl;
    rewrite <- ?app_assoc; eexists; repeat split.
Qed.

(** X8: the line buffer is append-only and the configuration is fixed:
    whatever the builder and the calls, the lines present before are
    still there, unchanged and in front, and both level lists are the
    same. *)
Theorem lines_append_only ops :
  forall b,
  let b' := run_ops md_convert b ops in
  (exists ls, lines b' = lines b ++ ls)
  /\ collapsible_levels b' = collapsible_levels b
  /\ open_by_default b' = open_by_default b.
Proof.
  induction ops as [|o ops IH]; intros b; simpl.
  - repeat split. exists []. now rewrite app_nil_r.
  - destruct (IH (apply_op md_convert b o)) as ([ls2 E2] & C2 & O2).
    assert (H1 : (exists ls, lines (apply_op md_convert b o) = lines b ++ ls)
                 /\ collapsible_levels (apply_op md_convert b o)
                    = collapsible_levels b
                 /\ open_by_default (apply_op md_convert b o)
                    = open_by_default b).
    { destruct o as [level txt | txt |]; simpl.
      - destruct (add_heading_appends level txt b) as (ls & E & C & O).
        repeat split; [now exists ls | assumption | assumption].
      - destruct (add_content_spec md_convert txt b) as (ls & _ & ->).
        repeat split. now exists ls.
      - rewrite close_all_spec. repeat split. eexists. reflexivity. }
    destruct H1 as ([ls1 E1] & C1 & O1).
    split; [|split; congruence].
    exists (ls1 ++ ls2). rewrite E2, E1. now rewrite app_assoc.
Qed.





(** X12: with no collapsible level configured, no container is ever
    opened or closed: the stack stays empty and the output holds plain
    headings and content lines only. *)
Theorem no_collapsible_no_container open_ ops :
  let b := run_ops md_convert (init [] open_) ops in
  stack b = []
  /\ Forall (fun l => kind l = KPlain \/ kind l = KContent) (lines b).
Proof.
  cbv zeta.
  assert (H : forall b,
             collapsible_levels b = [] -> stack b = [] ->
             Forall (fun l => kind l = KPlain \/ kind l = KContent) (lines b) ->
             let b' := run_ops md_convert b ops in
             stack b' = []
             /\ Forall (fun l => kind l = KPlain \/ kind l = KContent)
                       (lines b')).
  { induction ops as [|o ops IH]; intros b Hc Hs Hl; simpl; [now split|].
    destruct o as [level txt | txt |]; simpl; apply IH.
    - unfold add_heading, _close_until. rewrite Hs. simpl. now rewrite Hc.
    - unfold add_heading, _close_until. rewrite Hs. simpl. now rewrite Hc.
    - unfold add_heading, _close_until. rewrite Hs. simpl. rewrite Hc.
      simpl. apply Forall_app. split; [assumption|].
      constructor; [now left | constructor].
    - destruct (add_content_spec md_convert txt b) as (ls & _ & ->).
      exact Hc.
    - destruct (add_content_spec md_convert txt b) as (ls & _ & ->).
      exact Hs.
    - destruct (add_content_spec md_convert txt b) as (ls & F & ->).
      simpl. apply Forall_app. split; [assumption|].
      eapply Forall_impl; [|exact F]. simpl. intros l Hk. now right.
    - rewrite close_all_spec. exact Hc.
    - rewrite close_all_spec. reflexivity.
    - rewrite close_all_spec. simpl. rewrite Hs. simpl.
      now rewrite app_nil_r. }
  apply H; [reflexivity | reflexivity | constructor].
Qed.

End MoreBuilderFacts.


(* ================================================================== *)
(** ** File names, titles and the index *)
(* ================================================================== *)

Lemma replace_char_idem a b s :
  a <> b -> replace_char a b (replace_char a b s) = replace_char a b s.
Proof.
  intros Hab. unfold replace_char. rewrite map_map. apply map_ext.
  intros c. unfold char_eqb. destruct (N.eqb_spec c a) as [->|Hc].
  - destruct (N.eqb_spec b a); [congruence | reflexivity].
  - destruct (N.eqb_spec c a); [contradiction | reflexivity].
Qed.

Lemma replace_char_absent a b s : a <> b -> ~ In a (replace_char a b s).
Proof.
  intros Hab H. unfold replace_char in H. apply in_map_iff in H.
  destruct H as [c [E _]]. unfold char_eqb in E.
  destruct (N.eqb_spec c a); congruence.
Qed.

Lemma replace_char_keeps_absent a b x s :
  x <> b -> ~ In x s -> ~ In x (replace_char a b s).
Proof.
  intros Hxb Hx H. unfold replace_char in H. apply in_map_iff in H.
  destruct H as [c [E Hc]]. destruct (char_eqb c a); [congruence|].
  subst c. contradiction.
Qed.

Lemma replace_char_fixed a b s : ~ In a s -> replace_char a b s = s.
Proof.
  intros H. unfold replace_char. rewrite <- (map_id s) at 2.
  apply map_ext_in. intros c Hc. unfold char_eqb.
  destruct (N.eqb_spec c a); [subst; contradiction | reflexivity].
Qed.

(** X13: the title derived from a file name holds neither hyphen nor
    underscore, is as long as the stem, and deriving again from the
    title changes nothing: the two replacements are idempotent. *)
Theorem page_title_idempotent name :
  let t := page_title name in
  ~ In 45%N t /\ ~ In 95%N t
  /\ length t = length (stem name)
  /\ replace_char 95%N 32%N (replace_char 45%N 32%N t) = t.
Proof.
  cbv zeta. unfold page_title.
  assert (H45 : ~ In 45%N (replace_char 95%N 32%N
                              (replace_char 45%N 32%N (stem name)))).
  { apply replace_char_keeps_absent; [discriminate|].
    apply replace_char_absent. discriminate. }
  assert (H95 : ~ In 95%N (replace_char 95%N 32%N
                              (replace_char 45%N 32%N (stem name))))
    by (apply replace_char_absent; discriminate).
  split; [exact H45|]. split; [exact H95|]. split.
  - unfold replace_char. now rewrite !length_map.
  - rewrite (replace_char_fixed 45%N) by exact H45.
    apply replace_char_idem. discriminate.
Qed.

Lemma stem_suffix name : stem name ++ suffix name = name.
Proof.
  unfold stem, suffix. destruct (rfind_dot name 0) as [i|];
    [|apply app_nil_r].
  destruct ((0 <? i) && (i <? length name - 1))%nat;
    [apply firstn_skipn | apply app_nil_r].
Qed.

Lemma stem_nonempty name : name <> [] -> stem name <> [].
Proof.
  intros Hn. unfold stem. destruct (rfind_dot name 0) as [i|]; [|exact Hn].
  destruct ((0 <? i) && (i <? length name - 1))%nat eqn:E; [|exact Hn].
  apply andb_true_iff in E. destruct E as [E1 E2].
  apply Nat.ltb_lt in E1, E2. intros H.
  apply (f_equal (@length _)) in H. rewrite length_firstn in H.
  simpl in H. lia.
Qed.

Lemma endswith_app s p : endswith (s ++ p) p = true.
Proof. unfold endswith. rewrite rev_app_distr. apply startswith_app. Qed.

Lemma lower_length s : length (lower s) = length s.
Proof. apply length_map. Qed.

(** X14: a file that the entry point accepts (its suffix, lowercased,
    is [.md]) is never overwritten by its own conversion: the output
    name differs from the input name; and the output name ends in
    [.html], so the index generator's pattern matches it. *)
Theorem output_name_is_new name :
  is_markdown name = true ->
  output_name name <> name
  /\ endswith (output_name name) (str ".html") = true.
Proof.
  unfold is_markdown, output_name. intros H. apply pystr_eqb_eq in H.
  split; [|apply endswith_app].
  intros E. apply (f_equal (@length _)) in E.
  rewrite <- (stem_suffix name) in E at 2. rewrite !length_app in E.
  rewrite <- (lower_length (suffix name)), H in E. simpl in E. lia.
Qed.

Lemma output_name_is_new_witness :
  is_markdown (str "cours-macro.MD") = true
  /\ output_name (str "cours-macro.MD") = str "cours-macro.html"
  /\ output_name (str "cours-macro.MD") <> str "cours-macro.MD".
Proof.
  split; [reflexivity|]. split; [reflexivity|].
  exact (proj1 (output_name_is_new (str "cours-macro.MD") eq_refl)).
Defined.

Lemma lower_app a b : lower (a ++ b) = lower a ++ lower b.
Proof. apply map_app. Qed.

Lemma In_html_files name entries :
  In name (html_files entries)
  <-> In name entries /\ endswith name (str ".html") = true
      /\ lower name <> index_name.
Proof.
  unfold html_files, glob_html. split.
  - intros H. eapply Permutation_in in H; [|apply sorted_perm].
    apply filter_In in H. destruct H as [H1 H2].
    apply filter_In in H1. destruct H1 as [H0 H1].
    repeat split; try assumption.
    intros E. apply pystr_eqb_eq in E. rewrite E in H2. discriminate.
  - intros (H0 & H1 & H2).
    eapply Permutation_in; [symmetry; apply sorted_perm|].
    apply filter_In. split; [apply filter_In; now split|].
    apply negb_true_iff. destruct (pystr_eqb (lower name) index_name) eqn:E;
      [|reflexivity].
    apply pystr_eqb_eq in E. contradiction.
Qed.

(** X15: the page that [convert] writes for a source file is listed by
    [generate_index] when it lies in the directory, unless the stem of
    the source is [index] in some case; its label in the index is then
    the title of the page. *)
Theorem converted_page_is_listed name entries :
  name <> [] ->
  In (output_name name) entries ->
  lower (stem name) <> str "index" ->
  In (output_name name) (html_files entries)
  /\ In (item (output_name name)) (items entries)
  /\ display_name (output_name name) = page_title name.
Proof.
  intros Hn Hin Hidx.
  assert (Hl : In (output_name name) (html_files entries)).
  { apply In_html_files. split; [assumption|].
    split; [apply endswith_app|].
    unfold output_name, index_name. rewrite lower_app.
    change (str "index.html") with (str "index" ++ lower (str ".html")).
    intros E. apply app_inv_tail in E. contradiction. }
  split; [exact Hl|]. split; [now apply in_map|].
  unfold display_name, page_title, output_name.
  destruct (stem name) as [|c base] eqn:S;
    [now apply stem_nonempty in S|].
  now rewrite stem_html.
Qed.

Lemma converted_page_is_listed_witness :
  let entries := [str "style.css"; str "my_doc-name.html"] in
  output_name (str "my_doc-name.md") = str "my_doc-name.html"
  /\ In (str "my_doc-name.html") (html_files entries)
  /\ display_name (str "my_doc-name.html") = str "my doc name".
Proof.
  cbv zeta. split; [reflexivity|].
  assert (Hn : str "my_doc-name.md" <> []) by discriminate.
  assert (Hin : In (output_name (str "my_doc-name.md"))
                   [str "style.css"; str "my_doc-name.html"])
    by (right; left; reflexivity).
  assert (Hidx : lower (stem (str "my_doc-name.md")) <> str "index")
    by (vm_compute; discriminate).
  destruct (converted_page_is_listed (str "my_doc-name.md") _ Hn Hin Hidx)
    as (H1 & _ & H3).
  split; [exact H1 | exact H3].
Defined.

Lemma filter_drop (A : Type) (f : A -> bool) l1 x l2 :
  f x = false -> filter f (l1 ++ x :: l2) = filter f (l1 ++ l2).
Proof. intros H. rewrite !filter_app. simpl. now rewrite H. Qed.

Lemma html_files_filter entries :
  html_files entries
  = sorted (filter (fun name => endswith name (str ".html")
                                && negb (pystr_eqb (lower name) index_name))
                   entries).
Proof. unfold html_files, glob_html. now rewrite filter_filter. Qed.

(** X16: an entry whose lowercased name is [index.html], such as the
    index that an earlier run wrote, has no influence: with it or
    without it in the directory, the listing and the page written are
    the same. *)
Theorem index_ignores_its_own_output l1 name l2 css_file lang :
  lower name = str "index.html" ->
  html_files (l1 ++ name :: l2) = html_files (l1 ++ l2)
  /\ generate_index (l1 ++ name :: l2) css_file lang
     = generate_index (l1 ++ l2) css_file lang.
Proof.
  intros H.
  assert (E : html_files (l1 ++ name :: l2) = html_files (l1 ++ l2)).
  { rewrite !html_files_filter. f_equal. apply filter_drop.
    apply andb_false_iff. right. apply negb_false_iff.
    now apply pystr_eqb_eq. }
  split; [exact E|].
  unfold generate_index, items. now rewrite E.
Qed.

Lemma index_ignores_its_own_output_witness :
  lower (str "index.html") = str "index.html"
  /\ generate_index [str "b.html"; str "index.html"; str "a.html"]
                    (str "style.css") (str "fr")
     = generate_index [str "b.html"; str "a.html"]
                      (str "style.css") (str "fr").
Proof.
  split; [reflexivity|].
  exact (proj2 (index_ignores_its_own_output [str "b.html"]
                  (str "index.html") [str "a.html"]
                  (str "style.css") (str "fr") eq_refl)).
Defined.

Lemma pystr_le_antisym a b :
  pystr_ltb a b = false -> pystr_ltb b a = false -> a = b.
Proof.
  revert b. induction a as [|x a IH]; intros [|y b]; simpl;
    try congruence.
  intros H1 H2. apply orb_false_iff in H1, H2.
  destruct H1 as [L1 E1], H2 as [L2 E2].
  apply N.ltb_ge in L1, L2. assert (x = y) by lia. subst y.
  rewrite N.eqb_refl in E1, E2. simpl in E1, E2.
  f_equal. now apply IH.
Qed.

Lemma sorted_unique l1 :
  forall l2,
  StronglySorted (fun a b => pystr_ltb b a = false) l1 ->
  StronglySorted (fun a b => pystr_ltb b a = false) l2 ->
  Permutation l1 l2 -> l1 = l2.
Proof.
  induction l1 as [|x l1 IH]; intros l2 S1 S2 P.
  - apply Permutation_nil in P. now subst.
  - destruct l2 as [|y l2];
      [apply Permutation_sym, Permutation_nil in P; discriminate|].
    inversion S1 as [|? ? S1' F1]; inversion S2 as [|? ? S2' F2]; subst.
    assert (x = y).
    { assert (Hx : In x (y :: l2))
        by (eapply Permutation_in; [exact P | now left]).
      assert (Hy : In y (x :: l1))
        by (eapply Permutation_in; [symmetry; exact P | now left]).
      destruct Hx as [-> | Hx]; [reflexivity|].
      destruct Hy as [-> | Hy]; [reflexivity|].
      rewrite Forall_forall in F1, F2.
      apply pystr_le_antisym; [apply F2, Hx | apply F1, Hy]. }
    subst y. f_equal. apply IH; try assumption.
    eapply Permutation_cons_inv. exact P.
Qed.

Lemma filter_permutation (A : Type) (f : A -> bool) l1 l2 :
  Permutation l1 l2 -> Permutation (filter f l1) (filter f l2).
Proof.
  induction 1 as [| x l l' _ IH | x y l | l l' l'' _ IH1 _ IH2]; simpl.
  - constructor.
  - destruct (f x); [now constructor | assumption].
  - destruct (f x), (f y); try reflexivity. apply perm_swap.
  - now transitivity (filter f l').
Qed.

(** X17: the index does not depend on the order in which the file
    system yields the entries of the directory. *)
Theorem index_independent_of_directory_order entries1 entries2 css_file lang :
  Permutation entries1 entries2 ->
  html_files entries1 = html_files entries2
  /\ generate_index entries1 css_file lang
     = generate_index entries2 css_file lang.
Proof.
  intros P.
  assert (E : html_files entries1 = html_files entries2).
  { apply sorted_unique; try apply sorted_ordered.
    unfold html_files, glob_html. rewrite !sorted_perm.
    now do 2 apply filter_permutation. }
  split; [exact E|]. unfold generate_index, items. now rewrite E.
Qed.

Lemma index_independent_of_directory_order_witness :
  Permutation [str "b.html"; str "a.html"] [str "a.html"; str "b.html"]
  /\ html_files [str "b.html"; str "a.html"]
     = html_files [str "a.html"; str "b.html"].
Proof.
  assert (P : Permutation [str "b.html"; str "a.html"]
                          [str "a.html"; str "b.html"]) by apply perm_swap.
  split; [exact P|].
  exact (proj1 (index_independent_of_directory_order _ _ [] [] P)).
Defined.

(** X18: [generate_index] returns without writing exactly when the
    directory has no entry that ends in [.html] other than entries
    whose lowercased name is [index.html]; otherwise it writes a page
    with one link for each listed file. *)
Theorem generate_index_writes_nothing_iff entries css_file lang :
  (generate_index entries css_file lang = None
   <-> forall name, In name entries ->
         endswith name (str ".html") = false
         \/ lower name = str "index.html")
  /\ (generate_index entries css_file lang <> None ->
      generate_index entries css_file lang
      = Some (page css_file lang (join nl (items entries)))
        /\ length (items entries) = length (html_files entries)).
Proof.
  split.
  - unfold generate_index. split.
    + intros H name Hin.
      destruct (html_files entries) as [|x l] eqn:E; [|discriminate].
      destruct (endswith name (str ".html")) eqn:Ee; [|now left]. right.
      destruct (pystr_eqb (lower name) index_name) eqn:Ei;
        [now apply pystr_eqb_eq|].
      exfalso. assert (Hl : In name (html_files entries)).
      { apply In_html_files. repeat split; try assumption.
        intros X. apply pystr_eqb_eq in X. congruence. }
      rewrite E in Hl. exact Hl.
    + intros H. destruct (html_files entries) as [|x l] eqn:E;
        [reflexivity|].
      exfalso. assert (Hx : In x (html_files entries))
        by (rewrite E; now left).
      apply In_html_files in Hx. destruct Hx as (Hin & He & Hi).
      destruct (H x Hin) as [X | X]; [congruence | contradiction].
  - intros H. split; [|apply length_map].
    unfold generate_index in *.
    destruct (html_files entries); [contradiction | reflexivity].
Qed.

Lemma generate_index_writes_nothing_iff_witness :
  generate_index [str "notes.txt"; str "INDEX.html"] [] [] = None
  /\ generate_index [str "a.html"] [] []
     = Some (page [] [] (join nl (items [str "a.html"]))).
Proof.
  split.
  - apply (proj1 (generate_index_writes_nothing_iff _ [] [])).
    intros name [<- | [<- | []]]; [now left | now right].
  - apply (proj2 (generate_index_writes_nothing_iff [str "a.html"] [] [])).
    vm_compute. discriminate.
Defined.

(* ================================================================== *)
(** ** The conversion of one document *)
(* ================================================================== *)

Lemma blank_has_no_marker content :
  has_nonspace content = false ->
  startswith content delim = false /\ ~ In 35%N content.
Proof.
  intros H. split.
  - destruct content as [|c content]; [reflexivity|].
    simpl in H. apply orb_false_iff in H. destruct H as [H _].
    apply negb_false_iff in H.
    change (startswith (c :: content) delim)
      with (char_eqb 45%N c && startswith content (skipn 1 delim)).
    unfold char_eqb. destruct (N.eqb_spec 45%N c) as [<-|]; [|reflexivity].
    discriminate H.
  - intros Hin. unfold has_nonspace in H.
    assert (X : existsb (fun c => negb (isspace c)) content = true)
      by (apply existsb_exists; exists 35%N; now split).
    congruence.
Qed.

Lemma strip_frontmatter_block fm t :
  Forall plain_line fm ->
  strip_frontmatter (delim ++ tail_lines fm ++ (nl ++ delim) ++ t)
  = lstrip_chars nl t.
Proof.
  intros Hfm.
  rewrite strip_frontmatter_scan;
    [| assumption | right; eexists; reflexivity].
  cbv zeta. rewrite find_from_hit.
  set (n := length (tail_lines fm)).
  replace (Z.of_nat (3 + n) =? -1) with false
    by (symmetry; apply Z.eqb_neq; lia).
  unfold slice_from.
  replace (Z.of_nat (3 + n) + 4 <? 0) with false
    by (symmetry; apply Z.ltb_ge; lia).
  f_equal.
  replace (delim ++ tail_lines fm ++ (nl ++ delim) ++ t)
    with ((delim ++ tail_lines fm ++ nl ++ delim) ++ t)
    by (now rewrite <- !app_assoc).
  apply skipn_app_exact. rewrite !length_app. fold n. simpl. lia.
Qed.

Section ConversionFacts.

Variable md_convert : pystr -> pystr.

(** X19: a document that is empty or holds whitespace only converts to
    the empty body, whatever the configuration and the renderer. *)
Theorem convert_body_of_blank collapsible open_ content :
  has_nonspace content = false ->
  convert_body md_convert collapsible open_ content = [].
Proof.
  intros H. destruct (blank_has_no_marker content H) as [Hs Hm].
  unfold convert_body, strip_frontmatter. rewrite Hs. simpl negb. cbv iota.
  unfold parse_sections, finditer. simpl finditer_loop.
  rewrite search_without_marker by assumption.
  simpl fold_left. cbv iota beta. rewrite truthy_strip.
  simpl skipn. rewrite H. reflexivity.
Qed.

(** X20: the lines of the metadata block never reach the page: two
    documents that differ only in the lines between the opening
    delimiter line and the closing one convert to the same body. *)
Theorem convert_body_ignores_frontmatter collapsible open_ fm1 fm2 rest :
  Forall plain_line fm1 -> Forall plain_line fm2 ->
  convert_body md_convert collapsible open_
    (join nl (delim :: fm1 ++ delim :: rest))
  = convert_body md_convert collapsible open_
      (join nl (delim :: fm2 ++ delim :: rest)).
Proof.
  intros H1 H2. unfold convert_body.
  rewrite !join_lines, !tail_lines_app.
  change (tail_lines (delim :: rest))
    with ((nl ++ delim) ++ tail_lines rest).
  now rewrite !strip_frontmatter_block.
Qed.

End ConversionFacts.

Lemma convert_body_of_blank_witness :
  has_nonspace (nl ++ str "  " ++ nl) = false
  /\ convert_body (fun t => t) [2; 3] [] (nl ++ str "  " ++ nl) = [].
Proof.
  split; [reflexivity|].
  exact (convert_body_of_blank (fun t => t) [2; 3] []
           (nl ++ str "  " ++ nl) eq_refl).
Defined.

Lemma convert_body_ignores_frontmatter_witness :
  (Forall plain_line [str "title: a"] /\ Forall plain_line [])
  /\ convert_body (fun t => t) [2; 3] []
       (join nl [delim; str "title: a"; delim; str "## H"; str "text"])
     = convert_body (fun t => t) [2; 3] []
         (join nl [delim; delim; str "## H"; str "text"]).
Proof.
  assert (H1 : Forall plain_line [str "title: a"]).
  { constructor; [|constructor]. split; [|reflexivity].
    vm_compute. intuition discriminate. }
  assert (H2 : Forall plain_line []) by constructor.
  split; [split; [exact H1 | exact H2]|].
  exact (convert_body_ignores_frontmatter (fun t => t) [2; 3] []
           [str "title: a"] [] [str "## H"; str "text"] H1 H2).
Defined.

(* ================================================================== *)
(** ** The configuration *)
(* ================================================================== *)

Section ConfigFacts.

Variable other_eqb : json -> json -> bool.

Lemma pystr_eqb_refl s : pystr_eqb s s = true.
Proof. now apply pystr_eqb_eq. Qed.

Lemma pystr_eqb_sym s t : pystr_eqb s t = pystr_eqb t s.
Proof.
  destruct (pystr_eqb s t) eqn:E.
  - apply pystr_eqb_eq in E. subst. symmetry. apply pystr_eqb_refl.
  - destruct (pystr_eqb t s) eqn:E'; [|reflexivity].
    apply pystr_eqb_eq in E'. subst. now rewrite pystr_eqb_refl in E.
Qed.

(** Reading a [str] key after an assignment. *)
Lemma dict_get_set d k v s :
  dict_get other_eqb (dict_set other_eqb d k v) (KStr s)
  = if key_eqb other_eqb k (KStr s) then Some v
    else dict_get other_eqb d (KStr s).
Proof.
  induction d as [|[k0 v0] d IH]; simpl; [reflexivity|].
  destruct (key_eqb other_eqb k0 k) eqn:E0; simpl.
  - destruct k0 as [s0|o0], k as [s1|o1]; simpl in *; try discriminate.
    + apply pystr_eqb_eq in E0. subst s1.
      destruct (pystr_eqb s0 s); reflexivity.
    + reflexivity.
  - destruct (key_eqb other_eqb k0 (KStr s)) eqn:E1; [|exact IH].
    destruct k0 as [s0|o0]; simpl in E1; [|discriminate].
    apply pystr_eqb_eq in E1. subst s0.
    destruct k as [s1|o1]; simpl in *; [|reflexivity].
    rewrite pystr_eqb_sym, E0. reflexivity.
Qed.

Lemma dict_get_assign_all ps :
  forall d s,
  dict_get other_eqb (assign_all other_eqb d ps) (KStr s)
  = match dict_get other_eqb (rev ps) (KStr s) with
    | Some v => Some v
    | None => dict_get other_eqb d (KStr s)
    end.
Proof.
  unfold assign_all.
  induction ps as [|[k0 v0] ps IH]; intros d s; simpl; [reflexivity|].
  rewrite IH, dict_get_set.
  assert (Hsnoc : forall l,
             dict_get other_eqb (l ++ [(k0, v0)]) (KStr s)
             = match dict_get other_eqb l (KStr s) with
               | Some x => Some x
               | None => if key_eqb other_eqb k0 (KStr s) then Some v0
                         else None
               end).
  { induction l as [|[k1 v1] l IHl]; simpl; [reflexivity|].
    destruct (key_eqb other_eqb k1 (KStr s)); [reflexivity | exact IHl]. }
  rewrite Hsnoc.
  destruct (dict_get other_eqb (rev ps) (KStr s)); [reflexivity|].
  destruct (key_eqb other_eqb k0 (KStr s)); reflexivity.
Qed.

Lemma dict_get_items items s :
  dict_get other_eqb
    (rev (List.map (fun kv : pystr * json => (KStr (fst kv), snd kv)) items))
    (KStr s)
  = user_value items s.
Proof.
  induction items as [|[k v] items IH]; simpl; [reflexivity|].
  rewrite <- IH.
  generalize (rev (List.map (fun kv : pystr * json => (KStr (fst kv), snd kv))
                     items)).
  intros l. induction l as [|[k1 v1] l IHl]; simpl.
  - reflexivity.
  - destruct (key_eqb other_eqb k1 (KStr s)); [reflexivity | exact IHl].
Qed.

Lemma assign_all_keeps_defined ps :
  forall d s,
  dict_get other_eqb d (KStr s) <> None ->
  dict_get other_eqb (assign_all other_eqb d ps) (KStr s) <> None.
Proof.
  intros d s H. rewrite dict_get_assign_all.
  destruct (dict_get other_eqb (rev ps) (KStr s)); [discriminate | exact H].
Qed.

(** X21: [load_config] returns the default configuration when the path
    is empty or names nothing.  When the file holds a JSON object, it
    returns a configuration in which a key that the object sets has the
    object's value (the last one, should it set the key twice) and every
    other [str] key has its default.  It raises when the file cannot be
    read as JSON and when the value loaded is [null], a boolean, a
    number or a non-empty string.  Whenever it returns, the four keys
    that [convert] reads are defined. *)
Theorem load_config_lookup files config_path :
  (config_path = [] \/ files config_path = Missing ->
   load_config other_eqb files config_path = Some DEFAULT_CONFIG)
  /\ (forall items,
        config_path <> [] -> files config_path = Holds (JObject items) ->
        exists config,
          load_config other_eqb files config_path = Some config
          /\ forall k,
               dict_get other_eqb config (KStr k)
               = match user_value items k with
                 | Some v => Some v
                 | None => dict_get other_eqb DEFAULT_CONFIG (KStr k)
                 end)
  /\ (config_path <> [] ->
      files config_path = Unreadable
      \/ (exists v, files config_path = Holds v
                    /\ match v with
                       | JNull | JBool _ | JInt _ | JFloat _
                       | JStr (_ :: _) => True
                       | _ => False
                       end) ->
      load_config other_eqb files config_path = None)
  /\ (forall config,
        load_config other_eqb files config_path = Some config ->
        Forall (fun k => dict_get other_eqb config (KStr k) <> None)
          [str "collapsible_levels"; str "css_file"; str "open_by_default";
           str "lang"]).
Proof.
  assert (Hdef : Forall (fun k => dict_get other_eqb DEFAULT_CONFIG (KStr k)
                                  <> None)
                   [str "collapsible_levels"; str "css_file";
                    str "open_by_default"; str "lang"])
    by (repeat constructor; discriminate).
  split; [|split; [|split]].
  - unfold load_config. intros [-> | H]; [reflexivity|].
    rewrite H. now destruct (truthy config_path).
  - intros items Hp Hf. unfold load_config. rewrite Hf.
    destruct config_path as [|c p]; [contradiction|]. simpl.
    eexists. split; [reflexivity|]. intros k.
    now rewrite dict_get_assign_all, dict_get_items.
  - intros Hp H. unfold load_config.
    destruct config_path as [|c p]; [contradiction|]. simpl.
    destruct H as [-> | [v [-> Hv]]]; [reflexivity|].
    destruct v as [| | | | [|x s] | |]; try contradiction; reflexivity.
  - intros config H. unfold load_config in H.
    assert (Hd : Some DEFAULT_CONFIG = Some config ->
                 Forall (fun k => dict_get other_eqb config (KStr k) <> None)
                   [str "collapsible_levels"; str "css_file";
                    str "open_by_default"; str "lang"])
      by (intros E; injection E as <-; exact Hdef).
    destruct (truthy config_path); [|now apply Hd].
    destruct (files config_path) as [| |v]; [now apply Hd | discriminate|].
    assert (Ha : forall ps,
               Forall (fun k => dict_get other_eqb
                                  (assign_all other_eqb DEFAULT_CONFIG ps)
                                  (KStr k) <> None)
                 [str "collapsible_levels"; str "css_file";
                  str "open_by_default"; str "lang"]).
    { intros ps. refine (Forall_impl _ _ Hdef).
      intros k Hk. exact (assign_all_keeps_defined ps _ k Hk). }
    destruct v as [| | | | [|x s] | l | items]; simpl in H;
      try discriminate.
    + now apply Hd.
    + destruct (pairs_of l) as [ps|]; [|discriminate].
      injection H as <-. apply Ha.
    + injection H as <-. apply Ha.
Qed.

End ConfigFacts.

Lemma load_config_lookup_witness :
  let same := fun _ _ : json => false in
  let files := fun _ : pystr =>
                 Holds (JObject [(str "lang", JStr (str "en"))]) in
  let broken := fun _ : pystr => Holds (JInt 3) in
  load_config same files [] = Some DEFAULT_CONFIG
  /\ (exists config,
        load_config same files (str "config.json") = Some config
        /\ dict_get same config (KStr (str "lang")) = Some (JStr (str "en"))
        /\ dict_get same config (KStr (str "css_file"))
           = Some (JStr (str "style.css")))
  /\ load_config same broken (str "config.json") = None.
Proof.
  cbv zeta.
  set (same := fun _ _ : json => false).
  set (files := fun _ : pystr =>
                  Holds (JObject [(str "lang", JStr (str "en"))])).
  set (broken := fun _ : pystr => Holds (JInt 3)).
  split; [|split].
  - apply (proj1 (load_config_lookup same files [])). now left.
  - destruct (proj1 (proj2 (load_config_lookup same files
                              (str "config.json")))
                    [(str "lang", JStr (str "en"))])
      as [config [E L]]; [discriminate | reflexivity|].
    exists config. split; [exact E|].
    split; rewrite L; reflexivity.
  - apply (proj1 (proj2 (proj2 (load_config_lookup same broken
                                  (str "config.json"))))).
    + discriminate.
    + right. exists (JInt 3). split; [reflexivity | exact I].
Defined.

(** What [update] does with a list: pairs are assigned, an element that
    is not a pair or whose key is a list makes it raise. *)
Example dict_update_on_sequences :
  let same := fun _ _ : json => false in
  let get := fun u k =>
               option_map (fun d => dict_get same d (KStr k))
                 (dict_update same DEFAULT_CONFIG u) in
  get (JList [JList [JStr (str "lang"); JStr (str "en")]]) (str "lang")
    = Some (Some (JStr (str "en")))
  /\ get (JList [JStr (str "ab")]) (str "a") = Some (Some (JStr (str "b")))
  /\ get (JList [JObject [(str "x", JInt 1); (str "y", JInt 2)]]) (str "x")
     = Some (Some (JStr (str "y")))
  /\ get (JList [JInt 1]) (str "lang") = None
  /\ get (JList [JList [JList [JInt 1]; JInt 2]]) (str "lang") = None
  /\ get (JList [JStr (str "abc")]) (str "lang") = None
  /\ get (JStr []) (str "lang") = Some (Some (JStr (str "fr")))
  /\ get (JStr (str "ab")) (str "lang") = None.
Proof. vm_compute. repeat split. Qed.

(* ================================================================== *)
(** ** Headings that the parser recognizes *)
(* ================================================================== *)

(** A greedy repeat takes the whole run of its class when the
    continuation succeeds behind the run. *)
Lemma rep_greedy cls mid :
  forall lo hi k bef rest r,
  Forall (fun x => cls x = true) mid ->
  match rest with [] => True | x :: _ => cls x = false end ->
  (lo <= length mid)%nat ->
  (forall n, hi = Some n -> (length mid <= n)%nat) ->
  k {| before := rev mid ++ bef; after := rest |} = Some r ->
  rep cls lo hi k bef (mid ++ rest) = Some r.
Proof.
  induction mid as [|x mid IH]; intros lo hi k bef rest r F Hrest L U K.
  - simpl in L. assert (lo = 0%nat) by lia. subst lo. simpl in K.
    simpl app. destruct rest as [|y rest]; simpl; [exact K|].
    now rewrite Hrest.
  - inversion F as [|? ? Fx F']; subst. simpl app. simpl rep.
    assert (C : can_take hi = true).
    { destruct hi as [[|n]|]; try reflexivity.
      specialize (U 0%nat eq_refl). simpl in U. lia. }
    rewrite Fx, C. simpl andb. cbv iota.
    rewrite (IH (Nat.pred lo) (taken hi) k (x :: bef) rest r);
      [reflexivity | assumption | assumption | simpl in L; lia | |].
    + intros n Hn. destruct hi as [h|]; [|discriminate].
      injection Hn as <-. specialize (U h eq_refl). simpl in U. lia.
    + simpl in K. now rewrite <- app_assoc in K.
Qed.

Lemma space_is_no_hash x : isspace x = true -> is_hash x = false.
Proof.
  intros H. unfold is_hash, char_eqb.
  destruct (N.eqb_spec x 35%N) as [->|]; [discriminate H | reflexivity].
Qed.

(** The match at the start of a heading line. *)
Lemma match_heading_line k ws c tx rest :
  (1 <= k <= 6)%nat ->
  ws <> [] -> Forall (fun x => isspace x = true) ws ->
  isspace c = false -> Forall (fun x => x <> LF) (c :: tx) ->
  line_end rest ->
  let hs := repeat 35%N k in
  let e := (k + length ws + length (c :: tx))%nat in
  match_here heading_pattern
    {| before := []; after := hs ++ ws ++ (c :: tx) ++ rest |}
  = Some ({| m_start := 0; m_end := e;
             m_spans := [(0, k)%nat; (k + length ws, e)%nat] |},
          {| before := rev (hs ++ ws ++ c :: tx); after := rest |}).
Proof.
  intros Hk Hws Fws Hc Ftx Hrest hs e. subst hs e.
  unfold match_here.
  assert (R : run heading_pattern (fun c' caps => Some (c', caps))
                {| before := []; after := repeat 35%N k ++ ws ++ (c :: tx) ++ rest |} []
              = Some ({| before := rev (repeat 35%N k ++ ws ++ c :: tx); after := rest |},
                      [(0, k)%nat; (k + length ws, k + length ws + length (c :: tx))%nat])).
  { unfold heading_pattern. cbn [run at_bol before after].
    apply rep_greedy.
    - apply Forall_forall. intros x Hx. apply repeat_spec in Hx.
      rewrite Hx. reflexivity.
    - destruct ws as [|w ws']; [contradiction|].
      inversion Fws as [|? ? Hw _]. simpl. now apply space_is_no_hash.
    - rewrite repeat_length. lia.
    - intros n Hn. injection Hn as <-. rewrite repeat_length. lia.
    - cbn [run before after]. apply rep_greedy.
      + exact Fws.
      + simpl. exact Hc.
      + destruct ws; [contradiction | simpl; lia].
      + discriminate.
      + cbn [run before after]. apply rep_greedy.
        * eapply Forall_impl; [|exact Ftx]. simpl. intros x Hx.
          unfold not_newline, char_eqb. apply negb_true_iff.
          now apply N.eqb_neq.
        * destruct Hrest as [-> | [t ->]]; [exact I | reflexivity].
        * simpl. lia.
        * discriminate.
        * assert (Eol : forall b, at_eol {| before := b; after := rest |}
                                 = true)
            by (intros b; destruct Hrest as [-> | [t ->]]; reflexivity).
          rewrite Eol. f_equal. f_equal.
          -- f_equal. rewrite !rev_app_distr, <- !app_assoc.
             now rewrite app_nil_r.
          -- unfold pos. cbn [before]. simpl app.
             rewrite !length_app, !length_rev, repeat_length.
             simpl length.
             f_equal; [f_equal; lia | f_equal; f_equal; lia]. }
  rewrite R. unfold pos. cbn [before]. simpl length at 1.
  f_equal. f_equal. f_equal.
  rewrite length_rev, !length_app, repeat_length. lia.
Qed.

(** *** Matching behind a prefix

    The engine looks to the left of a position only to tell whether a
    line starts there.  Where a prefix put in front of the text leaves
    that unchanged, it finds the same matches, moved by the length of
    the prefix. *)

Lemma bol_agrees_cons prefix x bef : bol_agrees prefix (x :: bef).
Proof. left. discriminate. Qed.

Lemma rep_shift prefix cls aft :
  forall lo hi k k' bef,
  bol_agrees prefix bef ->
  (forall c1, bol_agrees prefix (before c1) ->
              k' (shift_cursor prefix c1)
              = option_map (shift_outcome prefix) (k c1)) ->
  rep cls lo hi k' (bef ++ prefix) aft
  = option_map (shift_outcome prefix) (rep cls lo hi k bef aft).
Proof.
  induction aft as [|x aft IH]; intros lo hi k k' bef Hb K.
  - simpl. destruct lo; [|reflexivity].
    apply (K {| before := bef; after := [] |}). exact Hb.
  - simpl. destruct (cls x && can_take hi).
    + change (x :: bef ++ prefix) with ((x :: bef) ++ prefix).
      rewrite (IH (Nat.pred lo) (taken hi) k k' (x :: bef));
        [| apply bol_agrees_cons | exact K].
      destruct (rep cls (Nat.pred lo) (taken hi) k (x :: bef) aft);
        [reflexivity|].
      simpl. destruct lo; [|reflexivity].
      apply (K {| before := bef; after := x :: aft |}). exact Hb.
    + destruct lo; [|reflexivity].
      apply (K {| before := bef; after := x :: aft |}). exact Hb.
Qed.

Lemma pos_shift prefix c :
  pos (shift_cursor prefix c) = (length prefix + pos c)%nat.
Proof. unfold pos, shift_cursor. simpl. rewrite length_app. lia. Qed.

Lemma at_bol_shift prefix c :
  bol_agrees prefix (before c) -> at_bol (shift_cursor prefix c) = at_bol c.
Proof.
  unfold at_bol, shift_cursor. simpl.
  destruct (before c) as [|x bef]; [|reflexivity].
  intros [H | [p ->]]; [contradiction | reflexivity].
Qed.

Lemma run_shift prefix r :
  forall (k k' : cursor -> captures -> option outcome) c (caps : captures),
  bol_agrees prefix (before c) ->
  (forall c1 caps1, bol_agrees prefix (before c1) ->
      k' (shift_cursor prefix c1)
         (List.map (shift_span (length prefix)) caps1)
      = option_map (shift_outcome prefix) (k c1 caps1)) ->
  run r k' (shift_cursor prefix c)
      (List.map (shift_span (length prefix)) caps)
  = option_map (shift_outcome prefix) (run r k c caps).
Proof.
  induction r as [| | cls lo hi | r IH | r1 IH1 r2 IH2];
    intros k k' c caps Hb K; simpl.
  - rewrite at_bol_shift by exact Hb.
    destruct (at_bol c); [now apply K | reflexivity].
  - change (at_eol (shift_cursor prefix c)) with (at_eol c).
    destruct (at_eol c); [now apply K | reflexivity].
  - apply rep_shift; [exact Hb|]. intros c1 H1. now apply K.
  - apply IH; [exact Hb|]. intros c1 caps1 H1.
    rewrite <- K by exact H1. f_equal.
    rewrite map_app. simpl. unfold shift_span at 2. simpl.
    now rewrite !pos_shift.
  - apply IH1; [exact Hb|]. intros c1 caps1 H1. now apply IH2.
Qed.

Lemma match_here_shift prefix r c :
  bol_agrees prefix (before c) ->
  match_here r (shift_cursor prefix c)
  = option_map (fun mc => (shift_match (length prefix) (fst mc),
                           shift_cursor prefix (snd mc)))
               (match_here r c).
Proof.
  intros Hb. unfold match_here.
  pose proof (run_shift prefix r (fun c' caps => Some (c', caps))
                (fun c' caps => Some (c', caps)) c [] Hb
                (fun c1 caps1 _ => eq_refl)) as H.
  simpl List.map in H. rewrite H.
  destruct (run r _ c []) as [[c' caps]|]; [|reflexivity].
  simpl. unfold shift_match. simpl. now rewrite !pos_shift.
Qed.

Lemma search_shift prefix r aft :
  forall bef,
  bol_agrees prefix bef ->
  search r (bef ++ prefix) aft
  = option_map (fun mc => (shift_match (length prefix) (fst mc),
                           shift_cursor prefix (snd mc)))
               (search r bef aft).
Proof.
  induction aft as [|x aft IH]; intros bef Hb; simpl.
  - change {| before := bef ++ prefix; after := [] |}
      with (shift_cursor prefix {| before := bef; after := [] |}).
    rewrite match_here_shift by exact Hb.
    destruct (match_here r _) as [[m c']|]; reflexivity.
  - change {| before := bef ++ prefix; after := x :: aft |}
      with (shift_cursor prefix {| before := bef; after := x :: aft |}).
    rewrite match_here_shift by exact Hb.
    destruct (match_here r _) as [[m c']|]; [reflexivity|].
    change (x :: bef ++ prefix) with ((x :: bef) ++ prefix).
    apply IH. apply bol_agrees_cons.
Qed.

Lemma search_keeps_agreement prefix r bef aft m c' :
  bol_agrees prefix bef -> search r bef aft = Some (m, c') ->
  bol_agrees prefix (before c').
Proof.
  intros [Hb | Hp] S; [|now right]. left.
  apply search_inv in S. destruct S as (c1 & E1 & M).
  apply match_here_inv in M. destruct M as (E2 & _).
  destruct (extends_trans _ _ _ E1 E2) as [mid [_ B]]. simpl in B.
  rewrite B. intros X. apply app_eq_nil in X. destruct X as [_ X].
  contradiction.
Qed.

Lemma finditer_loop_shift prefix r fuel :
  forall c,
  bol_agrees prefix (before c) ->
  finditer_loop fuel r (shift_cursor prefix c)
  = List.map (shift_match (length prefix)) (finditer_loop fuel r c).
Proof.
  induction fuel as [|fuel IH]; intros c Hb; simpl; [reflexivity|].
  rewrite search_shift by exact Hb.
  destruct (search r (before c) (after c)) as [[m c']|] eqn:S;
    [|reflexivity].
  simpl. f_equal. apply IH. eapply search_keeps_agreement; eassumption.
Qed.

Lemma match_needs_marker c m c' :
  match_here heading_pattern c = Some (m, c') ->
  exists t, after c = 35%N :: t.
Proof.
  intros M. destruct (heading_match_inv _ _ _ M)
    as (_ & _ & hs & ws & tx & A & _ & Fh & [Lh _] & _).
  destruct hs as [|h hs]; [simpl in Lh; lia|].
  inversion Fh as [|? ? Hh _]; subst. apply N.eqb_eq in Hh. subst h.
  rewrite A. eexists. reflexivity.
Qed.

Lemma no_match_at_line_end bef rest :
  line_end rest ->
  match_here heading_pattern {| before := bef; after := rest |} = None.
Proof.
  intros Hrest.
  destruct (match_here heading_pattern _) as [[m c']|] eqn:M;
    [|reflexivity].
  apply match_needs_marker in M. destruct M as [t M]. simpl in M.
  destruct Hrest as [-> | [r ->]]; discriminate M.
Qed.

(** Behind a complete line the matches do not depend on that line. *)
Lemma finditer_loop_behind_line fuel prefix rest :
  line_end rest ->
  finditer_loop fuel heading_pattern {| before := prefix; after := rest |}
  = List.map (shift_match (length prefix))
      (finditer_loop fuel heading_pattern {| before := []; after := rest |}).
Proof.
  intros Hrest. destruct fuel as [|fuel]; [reflexivity|].
  simpl finditer_loop. cbn [before after].
  destruct rest as [|x rest].
  - simpl search. now rewrite !no_match_at_line_end.
  - simpl search. rewrite !no_match_at_line_end by exact Hrest.
    change (x :: prefix) with ([x] ++ prefix).
    rewrite search_shift by apply bol_agrees_cons.
    destruct (search heading_pattern [x] rest) as [[m c']|] eqn:S;
      [|reflexivity].
    simpl. f_equal. apply finditer_loop_shift.
    eapply search_keeps_agreement; [|exact S]. apply bol_agrees_cons.
Qed.

Lemma search_here r bef aft res :
  match_here r {| before := bef; after := aft |} = Some res ->
  search r bef aft = Some res.
Proof. intros H. destruct aft; simpl; now rewrite H. Qed.

Lemma skipn_shift (pre rest : pystr) a :
  skipn (length pre + a) (pre ++ rest) = skipn a rest.
Proof.
  rewrite skipn_app, skipn_all2 by lia.
  simpl. f_equal. lia.
Qed.

Lemma slice_shift (pre rest : pystr) a b :
  slice (pre ++ rest) (length pre + a) (length pre + b) = slice rest a b.
Proof.
  unfold slice. rewrite skipn_shift. f_equal. lia.
Qed.

Lemma group_shift pre rest m i :
  group (pre ++ rest) (shift_match (length pre) m) i = group rest m i.
Proof.
  unfold group, shift_match. simpl. rewrite nth_error_map.
  destruct (nth_error (m_spans m) (i - 1)) as [[a b]|]; [|reflexivity].
  simpl. apply slice_shift.
Qed.

Lemma segments_shift pre rest ms :
  forall last,
  flat_map (segment_nodes (pre ++ rest))
    (segments (pre ++ rest) (length pre + last)
       (List.map (shift_match (length pre)) ms))
  = flat_map (segment_nodes rest) (segments rest last ms).
Proof.
  induction ms as [|m ms IH]; intros last; simpl.
  - now rewrite skipn_shift.
  - rewrite slice_shift, !group_shift, IH. reflexivity.
Qed.

(** The first match of a document that starts with a heading line, and
    the matches behind it. *)
Lemma finditer_heading_line k ws c tx rest :
  (1 <= k <= 6)%nat ->
  ws <> [] -> Forall (fun x => isspace x = true) ws ->
  isspace c = false -> Forall (fun x => x <> LF) (c :: tx) ->
  line_end rest ->
  let pre := repeat 35%N k ++ ws ++ c :: tx in
  finditer heading_pattern (pre ++ rest)
  = {| m_start := 0; m_end := length pre;
       m_spans := [(0, k)%nat; (k + length ws, length pre)%nat] |}
    :: List.map (shift_match (length pre)) (finditer heading_pattern rest).
Proof.
  intros Hk Hws Fws Hc Ftx Hrest pre.
  pose proof (match_heading_line k ws c tx rest Hk Hws Fws Hc Ftx Hrest) as M.
  cbv zeta in M. apply search_here in M.
  assert (Lpre : length pre = (k + length ws + length (c :: tx))%nat).
  { unfold pre. rewrite !length_app, repeat_length. lia. }
  assert (Ec : repeat 35%N k ++ ws ++ (c :: tx) ++ rest = pre ++ rest).
  { unfold pre. now rewrite <- !app_assoc. }
  unfold finditer at 1. simpl finditer_loop. cbn [before after].
  rewrite <- Ec, M, Lpre. f_equal.
  rewrite finditer_loop_behind_line by exact Hrest.
  rewrite length_rev. fold pre. rewrite Lpre. f_equal.
  apply finditer_enough.
  rewrite !length_app, repeat_length. simpl. lia.
Qed.

Lemma heading_line_groups k (ws : list char) (c : char) (tx : list char)
    (rest : pystr) :
  let pre := repeat 35%N k ++ ws ++ c :: tx in
  let m := {| m_start := 0; m_end := length pre;
              m_spans := [(0, k)%nat; (k + length ws, length pre)%nat] |} in
  group (pre ++ rest) m 1 = repeat 35%N k
  /\ group (pre ++ rest) m 2 = c :: tx.
Proof.
  intros pre m.
  assert (Lpre : length pre = (k + length ws + length (c :: tx))%nat).
  { unfold pre. rewrite !length_app, repeat_length. lia. }
  unfold group, m. cbn [m_spans nth_error Nat.sub]. split.
  - unfold slice. simpl skipn. rewrite Nat.sub_0_r.
    unfold pre. rewrite <- !app_assoc.
    apply firstn_app_exact. now rewrite repeat_length.
  - unfold slice, pre.
    replace ((repeat 35%N k ++ ws ++ c :: tx) ++ rest)
      with ((repeat 35%N k ++ ws) ++ (c :: tx) ++ rest)
      by (now rewrite <- !app_assoc).
    rewrite skipn_app_exact by (now rewrite length_app, repeat_length).
    apply firstn_app_exact.
    fold pre. rewrite Lpre. lia.
Qed.

(** Text without [#] in front of a document that starts with a match:
    the matches are those of the document, moved. *)
Lemma search_skip_text text rest :
  ~ In 35%N text ->
  forall bef,
  search heading_pattern bef (text ++ rest)
  = search heading_pattern (rev text ++ bef) rest.
Proof.
  induction text as [|x text IH]; intros Hno bef; [reflexivity|].
  simpl app. simpl search.
  destruct (match_here heading_pattern
              {| before := bef; after := x :: text ++ rest |})
    as [[m c']|] eqn:M.
  - exfalso. apply match_needs_marker in M. destruct M as [t M].
    simpl in M. injection M as -> _. apply Hno. now left.
  - rewrite IH by (intros H; apply Hno; now right).
    now rewrite <- app_assoc.
Qed.

Lemma finditer_loop_skip_text fuel text doc bef :
  ~ In 35%N text ->
  finditer_loop fuel heading_pattern {| before := bef; after := text ++ doc |}
  = finditer_loop fuel heading_pattern
      {| before := rev text ++ bef; after := doc |}.
Proof.
  intros Hno. destruct fuel as [|fuel]; [reflexivity|].
  simpl finditer_loop. cbn [before after].
  now rewrite search_skip_text.
Qed.

Lemma finditer_behind_text text doc :
  ~ In 35%N text -> bol_agrees (rev text) [] ->
  finditer heading_pattern (text ++ doc)
  = List.map (shift_match (length text)) (finditer heading_pattern doc).
Proof.
  intros Hno Hb. unfold finditer at 1.
  rewrite finditer_loop_skip_text by exact Hno.
  change {| before := rev text ++ []; after := doc |}
    with (shift_cursor (rev text ++ []) {| before := []; after := doc |}).
  rewrite app_nil_r, finditer_loop_shift by exact Hb.
  rewrite length_rev. f_equal. apply finditer_enough.
  apply Nat.lt_succ_r. rewrite length_app. apply Nat.le_add_l.
Qed.

Lemma parse_sections_behind_text text doc m ms :
  ~ In 35%N text -> bol_agrees (rev text) [] ->
  finditer heading_pattern doc = m :: ms -> m_start m = 0%nat ->
  parse_sections (text ++ doc)
  = (if has_nonspace text then [Content text] else [])
    ++ parse_sections doc.
Proof.
  intros Hno Hb F S0.
  rewrite !parse_sections_segments, finditer_behind_text by assumption.
  rewrite F. cbn [List.map segments flat_map shift_match m_start m_end].
  rewrite S0, Nat.add_0_r.
  replace (slice (text ++ doc) 0 (length text)) with text
    by (unfold slice; simpl skipn; rewrite Nat.sub_0_r;
        symmetry; now apply firstn_app_exact).
  replace (slice doc 0 0) with (@nil char) by reflexivity.
  cbn [segment_nodes has_nonspace existsb app].
  fold (has_nonspace text).
  change (Matched
            {| m_start := length text; m_end := length text + m_end m;
               m_spans := List.map (shift_span (length text)) (m_spans m) |})
    with (Matched (shift_match (length text)
                     {| m_start := 0; m_end := m_end m;
                        m_spans := m_spans m |})).
  cbn [segment_nodes]. rewrite !group_shift, segments_shift.
  unfold group. cbn [m_spans]. reflexivity.
Qed.

(** X22: heading lines are recognized, and what comes before and after
    them is parsed on its own.  Take a text without [#] that is empty
    or ends with a line feed, then a heading line (one to six [#],
    whitespace, a text without line feed that starts with a character
    that is not whitespace, the end of the line), then the rest of the
    document.  [parse_sections] returns the text before as one content
    node, unless it is whitespace, then the heading, whose level is the
    number of [#] and whose text is the text of the line without its
    trailing whitespace, then the nodes of the rest. *)
Theorem parse_sections_heading_line text k ws c tx rest :
  ~ In 35%N text ->
  text = [] \/ (exists t, text = t ++ nl) ->
  (1 <= k <= 6)%nat ->
  ws <> [] -> Forall (fun x => isspace x = true) ws ->
  isspace c = false -> Forall (fun x => x <> LF) (c :: tx) ->
  line_end rest ->
  parse_sections (text ++ repeat 35%N k ++ ws ++ (c :: tx) ++ rest)
  = (if has_nonspace text then [Content text] else [])
    ++ Heading (Z.of_nat k) (strip (c :: tx)) :: parse_sections rest.
Proof.
  intros Hno Htext Hk Hws Fws Hc Ftx Hrest.
  pose proof (finditer_heading_line k ws c tx rest Hk Hws Fws Hc Ftx Hrest)
    as F. cbv zeta in F.
  destruct (heading_line_groups k ws c tx rest) as [G1 G2].
  set (pre := repeat 35%N k ++ ws ++ c :: tx) in *.
  assert (Ec : repeat 35%N k ++ ws ++ (c :: tx) ++ rest = pre ++ rest).
  { unfold pre. now rewrite <- !app_assoc. }
  assert (Hdoc : parse_sections (pre ++ rest)
                 = Heading (Z.of_nat k) (strip (c :: tx))
                   :: parse_sections rest).
  { rewrite !parse_sections_segments, F.
    cbn [segments flat_map segment_nodes m_start m_end].
    replace (slice (pre ++ rest) 0 0) with (@nil char) by reflexivity.
    cbn [has_nonspace existsb app].
    rewrite G1, G2, repeat_length. f_equal.
    rewrite <- (Nat.add_0_r (length pre)) at 1.
    apply segments_shift. }
  rewrite Ec, <- Hdoc.
  destruct Htext as [-> | [t ->]]; [reflexivity|].
  eapply parse_sections_behind_text; [exact Hno | | exact F | reflexivity].
  right. rewrite rev_app_distr. eexists. reflexivity.
Qed.

Lemma parse_sections_heading_line_witness :
  let intro := str "intro" ++ nl in
  let ok := fun x : char => x <> LF in
  (~ In 35%N intro /\ (intro = [] \/ exists t, intro = t ++ nl)
   /\ (1 <= 2 <= 6)%nat /\ str " " <> []
   /\ Forall (fun x => isspace x = true) (str " ")
   /\ isspace 65%N = false /\ Forall ok (str "A  ")
   /\ line_end (nl ++ str "text"))
  /\ parse_sections (intro ++ str "## A  " ++ nl ++ str "text")
     = [Content intro; Heading 2 (str "A"); Content (nl ++ str "text")].
Proof.
  cbv zeta.
  assert (Hno : ~ In 35%N (str "intro" ++ nl))
    by (vm_compute; intuition discriminate).
  assert (Htext : str "intro" ++ nl = []
                  \/ exists t, str "intro" ++ nl = t ++ nl)
    by (right; eexists; reflexivity).
  assert (Hk : (1 <= 2 <= 6)%nat) by lia.
  assert (Hws : str " " <> []) by discriminate.
  assert (Fws : Forall (fun x => isspace x = true) (str " "))
    by (repeat constructor).
  assert (Hc : isspace 65%N = false) by reflexivity.
  assert (Ftx : Forall (fun x : char => x <> LF) (str "A  "))
    by (repeat constructor; discriminate).
  assert (Hrest : line_end (nl ++ str "text"))
    by (right; eexists; reflexivity).
  split;
    [exact (conj Hno (conj Htext (conj Hk (conj Hws (conj Fws
              (conj Hc (conj Ftx Hrest)))))))|].
  exact (parse_sections_heading_line (str "intro" ++ nl) 2 (str " ") 65%N
           (str "  ") (nl ++ str "text") Hno Htext Hk Hws Fws Hc Ftx Hrest).
Defined.

(* ================================================================== *)
(** ** The lines of the body *)
(* ================================================================== *)










Section BodyLines.

Variable md_convert : pystr -> pystr.




End BodyLines.

(* ================================================================== *)
(** ** Where heading nodes come from *)
(* ================================================================== *)

Lemma firstn_ends_with (l : pystr) n x :
  nth_error l n = Some x -> firstn (S n) l = firstn n l ++ [x].
Proof.
  revert n. induction l as [|y l IH]; intros [|n] H; simpl in *;
    try discriminate.
  - now injection H as ->.
  - f_equal. now apply IH.
Qed.

Lemma skipn_starts_with (l : pystr) n x :
  nth_error l n = Some x -> exists r, skipn n l = x :: r.
Proof.
  revert n. induction l as [|y l IH]; intros [|n] H; simpl in *;
    try discriminate.
  - injection H as ->. now exists l.
  - now apply IH.
Qed.

Lemma heading_shape_in_text content m :
  heading_shape content m ->
  exists a hs ws tx z,
    content = a ++ hs ++ ws ++ tx ++ z
    /\ (a = [] \/ exists a', a = a' ++ nl)
    /\ line_end z
    /\ group content m 1 = hs /\ group content m 2 = tx
    /\ hs = repeat 35%N (length hs) /\ (1 <= length hs <= 6)%nat
    /\ ws <> [] /\ Forall (fun x => isspace x = true) ws
    /\ tx <> [] /\ one_line tx.
Proof.
  intros (hs & ws & tx & Sl & G1 & G2 & Fh & Lh & Fw & Lw & Ft & Lt & Hs & He).
  assert (Hlen : length (slice content (m_start m) (m_end m))
                 = (length hs + length ws + length tx)%nat)
    by (rewrite Sl, !length_app; lia).
  unfold slice in Hlen, Sl. rewrite length_firstn in Hlen.
  assert (Hse : (m_start m < m_end m)%nat).
  { pose proof (Nat.le_min_l (m_end m - m_start m)
                  (length (skipn (m_start m) content))) as Hmin.
    rewrite Hlen in Hmin. lia. }
  exists (firstn (m_start m) content), hs, ws, tx, (skipn (m_end m) content).
  split; [|split; [|split; [|split; [|split; [|split; [|split; [|split;
    [|split; [|split]]]]]]]]]; auto.
  - rewrite <- (firstn_skipn (m_start m) content) at 1. f_equal.
    rewrite <- (firstn_skipn (m_end m - m_start m)
                  (skipn (m_start m) content)).
    rewrite Sl, skipn_skipn, <- !app_assoc. repeat f_equal. lia.
  - destruct Hs as [-> | Hs]; [now left|].
    destruct (m_start m) as [|s]; [now left | right].
    simpl in Hs. rewrite Nat.sub_0_r in Hs.
    exists (firstn s content). now apply firstn_ends_with.
  - destruct He as [-> | He].
    + left. apply skipn_all.
    + right. now apply skipn_starts_with.
  - apply Forall_eq_repeat. eapply Forall_impl; [|exact Fh].
    simpl. intros x Hx. now symmetry.
  - intros ->. simpl in Lw. lia.
  - intros ->. simpl in Lt. lia.
  - unfold one_line. intros H. rewrite Forall_forall in Ft.
    now apply (Ft _ H).
Qed.

(** X24: every heading node that [parse_sections] returns comes from a
    piece of the document of this form: at the start of a line, as many
    [#] as the level says, between one and six, followed by whitespace
    and not by a further [#], then a non-empty text without line feed
    that reaches the end of its line; the text of the node is that text
    without the whitespace at its ends. *)
Theorem heading_nodes_come_from_heading_text content level txt :
  In (Heading level txt) (parse_sections content) ->
  exists a ws tx z,
    content = a ++ repeat 35%N (Z.to_nat level) ++ ws ++ tx ++ z
    /\ (a = [] \/ exists a', a = a' ++ nl)
    /\ line_end z
    /\ 1 <= level <= 6
    /\ ws <> [] /\ Forall (fun x => isspace x = true) ws
    /\ tx <> [] /\ one_line tx
    /\ txt = strip tx.
Proof.
  rewrite parse_sections_segments. intros H.
  apply in_flat_map in H. destruct H as [[t | m] [Hs Hn]]; simpl in Hn.
  - destruct (has_nonspace t); [|contradiction].
    destruct Hn as [Hn | []]. discriminate Hn.
  - destruct Hn as [Hn | []]. injection Hn as <- <-.
    apply segments_matched in Hs.
    pose proof (finditer_shape content) as Hf.
    rewrite Forall_forall in Hf.
    destruct (heading_shape_in_text content m (Hf _ Hs))
      as (a & hs & ws & tx & z & E & Ha & Hz & G1 & G2 & Hh & Lh
          & Hw & Fw & Ht & Ft).
    exists a, ws, tx, z. rewrite G1, G2, Nat2Z.id, <- Hh.
    repeat split; auto; lia.
Qed.

Lemma heading_nodes_come_from_heading_text_witness :
  In (Heading 2 (str "A")) (parse_sections (str "## A"))
  /\ exists a ws tx z,
       str "## A" = a ++ repeat 35%N (Z.to_nat 2) ++ ws ++ tx ++ z
       /\ (a = [] \/ exists a', a = a' ++ nl)
       /\ line_end z
       /\ 1 <= 2 <= 6
       /\ ws <> [] /\ Forall (fun x => isspace x = true) ws
       /\ tx <> [] /\ one_line tx
       /\ str "A" = strip tx.
Proof.
  assert (H : In (Heading 2 (str "A")) (parse_sections (str "## A")))
    by (vm_compute; left; reflexivity).
  split; [exact H|].
  exact (heading_nodes_come_from_heading_text (str "## A") 2 (str "A") H).
Defined.

(* ================================================================== *)
(** ** Accepted source names *)
(* ================================================================== *)

Lemma lower_char_dot x : lower_char x = 46%N -> x = 46%N.
Proof.
  unfold lower_char.
  destruct ((65 <=? x) && (x <=? 90))%N eqn:E; [|tauto].
  apply andb_true_iff in E. destruct E as [E1 E2].
  apply N.leb_le in E1. lia.
Qed.

Lemma lower_md ext :
  lower ext = str ".md" ->
  exists a b, ext = [46%N; a; b] /\ a <> 46%N /\ b <> 46%N.
Proof.
  destruct ext as [|x [|a [|b [|y ext]]]]; try discriminate.
  intros H. injection H as Hx Ha Hb.
  apply lower_char_dot in Hx. subst x. exists a, b.
  split; [reflexivity|]. split; intros ->; discriminate.
Qed.

Lemma rfind_dot_extension a b i :
  a <> 46%N -> b <> 46%N -> rfind_dot [46%N; a; b] i = Some i.
Proof.
  intros Ha Hb. simpl. unfold char_eqb.
  destruct (N.eqb_spec b 46%N); [contradiction|].
  destruct (N.eqb_spec a 46%N); [contradiction|]. reflexivity.
Qed.

(** X25: a name made of a non-empty stem and the extension [.md] in any
    mix of upper and lower case is accepted by the entry point; the page
    is written under the stem with [.html], and its title is the stem
    with hyphens and underscores replaced by spaces. *)
Theorem markdown_names_are_accepted base ext :
  base <> [] -> lower ext = str ".md" ->
  is_markdown (base ++ ext) = true
  /\ output_name (base ++ ext) = base ++ str ".html"
  /\ page_title (base ++ ext)
     = replace_char 95%N 32%N (replace_char 45%N 32%N base).
Proof.
  intros Hb Hext.
  destruct (lower_md ext Hext) as (a & b & -> & Ha & Hb').
  assert (Hr : rfind_dot (base ++ [46%N; a; b]) 0 = Some (length base)).
  { rewrite rfind_dot_app. now rewrite rfind_dot_extension. }
  assert (Hc : ((0 <? length base)
                && (length base <? length (base ++ [46%N; a; b]) - 1))%nat
               = true).
  { apply andb_true_iff. split; apply Nat.ltb_lt.
    - destruct base; [contradiction | simpl; lia].
    - rewrite length_app. simpl. lia. }
  assert (Hstem : stem (base ++ [46%N; a; b]) = base).
  { unfold stem. rewrite Hr, Hc. now apply firstn_app_exact. }
  assert (Hsuf : suffix (base ++ [46%N; a; b]) = [46%N; a; b]).
  { unfold suffix. rewrite Hr, Hc. now apply skipn_app_exact. }
  unfold is_markdown, output_name, page_title. rewrite Hstem, Hsuf.
  split; [apply pystr_eqb_eq; exact Hext|]. split; reflexivity.
Qed.

Lemma markdown_names_are_accepted_witness :
  (str "my_doc-name" <> [] /\ lower (str ".Md") = str ".md")
  /\ is_markdown (str "my_doc-name.Md") = true
  /\ output_name (str "my_doc-name.Md") = str "my_doc-name.html"
  /\ page_title (str "my_doc-name.Md") = str "my doc name".
Proof.
  assert (Hb : str "my_doc-name" <> []) by discriminate.
  assert (He : lower (str ".Md") = str ".md") by reflexivity.
  split; [split; [exact Hb | exact He]|].
  exact (markdown_names_are_accepted (str "my_doc-name") (str ".Md") Hb He).
Defined.
